(** * PCB component placement: validator and randomized search

    A shallow embedding of [placement_utils.py] (the constraint validator)
    and [solver.py] (the randomized, time-bounded placement search).

    Modelling conventions.
    - A Python dict keyed by component name is a [gmap string _].  Where
      the validator traverses a whole dict it folds a symmetric test or a
      sum, so the order of traversal plays no role
      ([traversal_order_irrelevant]).
    - Board coordinates and footprints are integers ([Z]).  Centers, the
      corners of the keep-out zone and the search target are halves and
      quarters of integers: doubles hold them, their sums and their
      products exactly, and they are modelled by the rationals ([Q]) they
      are.
    - Where a double rounds, the model computes in IEEE 754 binary64, Rocq's
      primitive [float]: the center of mass and its distance in the balance
      rule, and the sums that [int()] truncates in the search.
      [float_of_Q] reads an exact quantity as the double that holds it, and
      [x ** 2] is the correctly rounded product [x * x].
    - In the proximity rule the radicand of [_distance] is exact,
      [math.sqrt] is correctly rounded and monotone, and 10.0 is the root
      of 100.0: the test [dist <= PROXIMITY_RADIUS] is modelled by the test
      on the radicand, [_distance_sq p q <= r * r].  A diagnostic message
      that prints a distance carries the exact square of the distance.
    - [print] is modelled by the list of lines a call writes.
    - The random generator, the clock and [math.cos]/[math.sin] are an
      explicit [World]: every run of the search is a function of it. *)

From Stdlib Require Import Floats.
From Stdlib Require Import ZArith QArith Lqa Lia.
From stdpp Require Import gmap strings list fin_maps.

Local Open Scope Z_scope.

(** ** placement_utils.py: constants *)

Definition BOARD_DIMS : Z * Z := (50, 50).
Definition PROXIMITY_RADIUS : Q := 10%Q.
Definition CENTER_OF_MASS_RADIUS : Q := 2%Q.
Definition KEEPOUT_ZONE_DIMS : Z * Z := (10, 20).
Definition VALIDATION_TIME_LIMIT : Q := 2%Q.

(** A placed rectangle, the dict [{'x': .., 'y': .., 'w': .., 'h': ..}]. *)
Record Rect : Type := mkRect { comp_x : Z; comp_y : Z; comp_w : Z; comp_h : Z }.

#[global] Instance Rect_inhabited : Inhabited Rect := populate (mkRect 0 0 0 0).

(** The keep-out zone, a dict of the same shape whose entries may be
    halves. *)
Record Zone : Type := mkZone { zone_x : Q; zone_y : Q; zone_w : Q; zone_h : Q }.

Definition Point : Type := (Q * Q)%type.

(** ** Geometric helpers *)

Definition _get_center (comp : Rect) : Point :=
  ((inject_Z (comp_x comp) + inject_Z (comp_w comp) / 2)%Q,
   (inject_Z (comp_y comp) + inject_Z (comp_h comp) / 2)%Q).

(** The radicand of [_distance]. *)
Definition _distance_sq (p1 p2 : Point) : Q :=
  ((fst p2 - fst p1) ^ 2 + (snd p2 - snd p1) ^ 2)%Q.

Definition Qlt_bool (a b : Q) : bool := negb (Qle_bool b a).

(** [sum(...)] over rationals: left to right, from 0. *)
Definition Qsum (l : list Q) : Q := foldl Qplus 0%Q l.

(** ** Doubles *)

(** [float(z)] for a Python int: the double nearest to [z], ties to even. *)
Definition float_of_Z (z : Z) : float :=
  SF2Prim (binary_normalize prec emax z 0 false).

(** The double nearest to a rational, ties to even.  The quotient is
    taken to 64 bits or more, with one more bit below them that records
    whether anything was cut off. *)
Definition float_of_Q (q : Q) : float :=
  let r := Qred q in
  let n := Z.abs (Qnum r) in
  let d := Z.pos (Qden r) in
  let s := Z.max 0 (Z.log2 d - Z.log2 n + 64) in
  let sticky := if (n * 2 ^ s) mod d =? 0 then 0 else 1 in
  let m := 2 * ((n * 2 ^ s) / d) + sticky in
  SF2Prim (binary_normalize prec emax (Z.sgn (Qnum r) * m) (- s - 1) false).

(** [x ** 2] on a double. *)
Definition pow2 (x : float) : float := PrimFloat.mul x x.

(** [_distance], on doubles. *)
Definition _distance (p1 p2 : float * float) : float :=
  PrimFloat.sqrt (PrimFloat.add (pow2 (PrimFloat.sub (fst p2) (fst p1)))
                                (pow2 (PrimFloat.sub (snd p2) (snd p1)))).

(** ** The seven rules of [validate_placement] *)

(** Rule 1, the value bound to [all_in_bounds]. *)
Definition in_bounds (comp : Rect) : bool :=
  (0 <=? comp_x comp) && (0 <=? comp_y comp) &&
  (comp_x comp + comp_w comp <=? fst BOARD_DIMS) &&
  (comp_y comp + comp_h comp <=? snd BOARD_DIMS).

Definition all_in_bounds (placement : gmap string Rect) : bool :=
  forallb in_bounds (map_to_list placement).*2.

(** Rule 2.  [overlap_test a b] is the body of the generator inside
    [any(...)]: the negated disjunction of the four separation tests. *)
Definition overlap_test (a b : Rect) : bool :=
  negb ((comp_x a + comp_w a <=? comp_x b) ||
        (comp_x a >=? comp_x b + comp_w b) ||
        (comp_y a + comp_h a <=? comp_y b) ||
        (comp_y a >=? comp_y b + comp_h b)).

(** [any(f(items[i], items[j]) for i in range(n) for j in range(i+1, n))]. *)
Fixpoint any_pair {A : Type} (f : A -> A -> bool) (items : list A) : bool :=
  match items with
  | [] => false
  | a :: rest => existsb (f a) rest || any_pair f rest
  end.

Definition overlap_found (placement : gmap string Rect) : bool :=
  any_pair (fun i j => overlap_test (snd i) (snd j)) (map_to_list placement).

(** Rule 3. *)
Definition on_edge (comp : Rect) : bool :=
  (comp_x comp =? 0) || (comp_y comp =? 0) ||
  (comp_x comp + comp_w comp =? fst BOARD_DIMS) ||
  (comp_y comp + comp_h comp =? snd BOARD_DIMS).

Definition all_on_edge (placement : gmap string Rect) : bool :=
  forallb (fun name => on_edge (placement !!! name))
          ["USB_CONNECTOR"; "MIKROBUS_CONNECTOR_1"; "MIKROBUS_CONNECTOR_2"]%string.

(** Rule 4. *)
Definition is_parallel (placement : gmap string Rect) : bool :=
  let mb1 := placement !!! "MIKROBUS_CONNECTOR_1"%string in
  let mb2 := placement !!! "MIKROBUS_CONNECTOR_2"%string in
  if comp_w mb1 =? comp_w mb2 then
    ((comp_x mb1 =? 0) && (comp_x mb2 + comp_w mb2 =? 50)) ||
    ((comp_x mb1 + comp_w mb1 =? 50) && (comp_x mb2 =? 0)) ||
    ((comp_y mb1 =? 0) && (comp_y mb2 + comp_h mb2 =? 50)) ||
    ((comp_y mb1 + comp_h mb1 =? 50) && (comp_y mb2 =? 0))
  else false.

(** Rule 5: [dist], squared, and the test [dist <= PROXIMITY_RADIUS]. *)
Definition proximity_dist_sq (placement : gmap string Rect) : Q :=
  _distance_sq (_get_center (placement !!! "CRYSTAL"%string))
               (_get_center (placement !!! "MICROCONTROLLER"%string)).

Definition proximity_ok (placement : gmap string Rect) : bool :=
  Qle_bool (proximity_dist_sq placement) (PROXIMITY_RADIUS * PROXIMITY_RADIUS).

(** Rule 6.  [com_of] is the center of mass and [com_dist_sq] the square
    of its distance from the board center, both exact. *)
Definition com_of (centers : list Point) : Point :=
  ((Qsum (map fst centers) / inject_Z (Z.of_nat (length centers)))%Q,
   (Qsum (map snd centers) / inject_Z (Z.of_nat (length centers)))%Q).

Definition com (placement : gmap string Rect) : Point :=
  com_of (map _get_center (map_to_list placement).*2).

Definition com_dist_sq (placement : gmap string Rect) : Q :=
  _distance_sq (com placement) (25%Q, 25%Q).

(** [com_x], [com_y] as the code holds them: the two sums are exact, the
    division by [len(placement)] rounds. *)
Definition com_xy (centers : list Point) : float * float :=
  let len := float_of_Z (Z.of_nat (length centers)) in
  (PrimFloat.div (float_of_Q (Qsum (map fst centers))) len,
   PrimFloat.div (float_of_Q (Qsum (map snd centers))) len).

(** [com_dist], and the test [com_dist <= CENTER_OF_MASS_RADIUS]. *)
Definition com_dist (centers : list Point) : float :=
  _distance (com_xy centers) (float_of_Z 25, float_of_Z 25).

Definition balance_of (centers : list Point) : bool :=
  PrimFloat.leb (com_dist centers) (float_of_Q CENTER_OF_MASS_RADIUS).

Definition balance_ok (placement : gmap string Rect) : bool :=
  balance_of (map _get_center (map_to_list placement).*2).

(** Rule 7.  [keepout_zone usb] is the if/elif chain that binds [zone]. *)
Definition keepout_zone (usb : Rect) : Zone :=
  let zone_w := inject_Z (fst KEEPOUT_ZONE_DIMS) in
  let zone_h_inward := inject_Z (snd KEEPOUT_ZONE_DIMS) in
  let '(usb_cx, usb_cy) := _get_center usb in
  if comp_y usb =? 0 then
    mkZone (usb_cx - zone_w / 2) 0 zone_w zone_h_inward
  else if comp_y usb + comp_h usb =? 50 then
    mkZone (usb_cx - zone_w / 2) (50 - zone_h_inward) zone_w zone_h_inward
  else if comp_x usb =? 0 then
    mkZone 0 (usb_cy - zone_w / 2) zone_h_inward zone_w
  else
    mkZone (50 - zone_h_inward) (usb_cy - zone_w / 2) zone_h_inward zone_w.

Definition ccw (A B C : Point) : bool :=
  Qlt_bool ((snd B - snd A) * (fst C - fst A)) ((snd C - snd A) * (fst B - fst A)).

Definition intersect (A B C D : Point) : bool :=
  xorb (ccw A C D) (ccw B C D) && xorb (ccw A B C) (ccw A B D).

(** [intersects] for a given zone and segment [p1]-[p2]. *)
Definition zone_intersects (zone : Zone) (p1 p2 : Point) : bool :=
  let tl := (zone_x zone, zone_y zone) in
  let tr := ((zone_x zone + zone_w zone)%Q, zone_y zone) in
  let bl := (zone_x zone, (zone_y zone + zone_h zone)%Q) in
  let br := ((zone_x zone + zone_w zone)%Q, (zone_y zone + zone_h zone)%Q) in
  intersect p1 p2 tl tr || intersect p1 p2 tr br ||
  intersect p1 p2 br bl || intersect p1 p2 bl tl.

Definition keepout_ok (placement : gmap string Rect) : bool :=
  let usb := placement !!! "USB_CONNECTOR"%string in
  let crystal := placement !!! "CRYSTAL"%string in
  let micro := placement !!! "MICROCONTROLLER"%string in
  negb (zone_intersects (keepout_zone usb) (_get_center crystal) (_get_center micro)).

(** ** [validate_placement] *)

(** The message stored next to a rule's verdict. *)
Inductive Msg : Type :=
| MsgNone                          (* "" *)
| MsgActualDistance (dist_sq : Q)  (* f"Actual distance: {dist:.2f}" *)
| MsgCoMDist (com_dist_sq : Q).    (* f"CoM dist: {com_dist:.2f}" *)

(** The lines [validate_placement] prints. *)
Inductive Line : Type :=
| LineHeader                       (* "--- Running Detailed Hard Constraint Validation ---" *)
| LineMissing                      (* "FAILED: The placement dictionary is missing ..." *)
| LineRule (rule : string) (is_valid : bool) (msg : Msg).

Definition required_keys : list string :=
  ["USB_CONNECTOR"; "MICROCONTROLLER"; "CRYSTAL";
   "MIKROBUS_CONNECTOR_1"; "MIKROBUS_CONNECTOR_2"]%string.

(** [all(key in placement for key in required_keys)]. *)
Definition has_required_keys (placement : gmap string Rect) : bool :=
  forallb (fun key => bool_decide (is_Some (placement !! key))) required_keys.

(** The [results] dict once all seven entries are stored, in insertion
    order. *)
Definition rule_results (placement : gmap string Rect)
  : list (string * (bool * Msg)) :=
  [ ("Boundary Constraint"%string, (all_in_bounds placement, MsgNone));
    ("No Overlapping"%string, (negb (overlap_found placement), MsgNone));
    ("Edge Placement"%string, (all_on_edge placement, MsgNone));
    ("Parallel Placement"%string, (is_parallel placement, MsgNone));
    ("Proximity Constraint"%string,
       (proximity_ok placement, MsgActualDistance (proximity_dist_sq placement)));
    ("Global Balance"%string,
       (balance_ok placement, MsgCoMDist (com_dist_sq placement)));
    ("Keep-Out Zone"%string, (keepout_ok placement, MsgNone)) ].

(** Returns the boolean result and the printed lines. *)
Definition validate_placement (placement : gmap string Rect) : bool * list Line :=
  if negb (has_required_keys placement) then
    (false, [LineHeader; LineMissing])
  else
    let results := rule_results placement in
    let all_valid := forallb (fun res => fst (snd res)) results in
    (all_valid,
     LineHeader :: map (fun '(rule, (is_valid, msg)) => LineRule rule is_valid msg) results).

(** ** solver.py: constants and helpers *)

(** [COMPONENTS_SPECS[name]['size']]. *)
Definition COMPONENTS_SPECS : gmap string (Z * Z) :=
  list_to_map [ ("USB_CONNECTOR"%string, (5, 5));
                ("MICROCONTROLLER"%string, (5, 5));
                ("CRYSTAL"%string, (5, 5));
                ("MIKROBUS_CONNECTOR_1"%string, (5, 15));
                ("MIKROBUS_CONNECTOR_2"%string, (5, 15)) ].

(** The solver's internal format, [(x, y, rot)]. *)
Definition Pos : Type := (Z * Z * Z)%type.

(** The footprint of [name] under rotation [rot]; [None] is the [KeyError]
    of an unknown name. *)
Definition rotated_size (name : string) (rot : Z) : option (Z * Z) :=
  '(w, h) ← COMPONENTS_SPECS !! name;
  Some (if rot =? 90 then (h, w) else (w, h)).

Definition get_center_from_pos (name : string) (pos : Pos) : option Point :=
  let '(x, y, rot) := pos in
  '(w, h) ← rotated_size name rot;
  Some ((inject_Z x + inject_Z w / 2)%Q, (inject_Z y + inject_Z h / 2)%Q).

(** One iteration of the loop of [_convert_to_util_format]. *)
Definition convert_item (util_placement : option (gmap string Rect))
  (item : string * Pos) : option (gmap string Rect) :=
  let '(name, (x, y, rot)) := item in
  acc ← util_placement;
  '(w, h) ← rotated_size name rot;
  Some (<[name := mkRect x y w h]> acc).

Definition _convert_to_util_format (internal_placement : gmap string Pos)
  : option (gmap string Rect) :=
  foldl convert_item (Some ∅) (map_to_list internal_placement).

(** ** The world a search runs in *)

(** A (MIKROBUS orientation, USB edge) pair. *)
Definition Config : Type := (string * string)%type.

(** Everything [find_placement] reads from outside: the outcome of
    [random.shuffle], the n-th draw of the random generator (as a
    [randint(a, b)] or as a [uniform(a, b)]), the n-th reading of
    [time.time()], and the two trigonometric functions. *)
Record World : Type := mkWorld {
  random_shuffle : list Config -> list Config;
  random_randint : nat -> Z -> Z -> Z;
  random_uniform : nat -> Q -> Q -> Q;
  time_time : nat -> Q;
  math_cos : Q -> Q;
  math_sin : Q -> Q
}.

(** [math.pi], the double nearest to pi. *)
Definition math_pi : Q := (884279719003555 # 281474976710656)%Q.

(** Python's [int(f)] on a double: truncation toward zero.  On an
    infinity or a NaN, which no sum of draws of ordinary size reaches,
    [int] raises; the model then gives 0. *)
Definition int (f : float) : Z :=
  match Prim2SF f with
  | S754_finite s m e =>
      let v := if 0 <=? e then Z.pos m * 2 ^ e else Z.pos m / 2 ^ (- e) in
      if s then - v else v
  | _ => 0
  end.

(** What a run has consumed so far. *)
Record Run : Type := mkRun { draws : nat; ticks : nat }.

(** What a run does that an observer can see. *)
Inductive Event : Type :=
| EvCheck (config : Config) (start_time now : Q)
    (* the [while] condition of [config] is evaluated at clock reading [now] *)
| EvValidate (config : Config) (final_placement : gmap string Rect) (ok : bool).
    (* a candidate of [config] is passed to [validate_placement] *)

Inductive Outcome (A : Type) : Type :=
| Done (a : A)     (* the call returns [a] *)
| KeyError         (* a dict lookup raises *)
| OutOfFuel.       (* the model's bound on [while] iterations is reached *)
Arguments Done {A} a.
Arguments KeyError {A}.
Arguments OutOfFuel {A}.

(** State over [Run], failure, and the events written so far. *)
Definition M (A : Type) : Type := Run -> Outcome A * Run * list Event.

Definition ret {A : Type} (a : A) : M A := fun s => (Done a, s, []).

Definition bind {A B : Type} (m : M A) (k : A -> M B) : M B :=
  fun s =>
    match m s with
    | (Done a, s', ev1) =>
        match k a s' with (o, s'', ev2) => (o, s'', ev1 ++ ev2) end
    | (KeyError, s', ev1) => (KeyError, s', ev1)
    | (OutOfFuel, s', ev1) => (OutOfFuel, s', ev1)
    end.

Notation "x <- c1 ;; c2" := (bind c1 (fun x => c2))
  (at level 100, c1 at next level, right associativity).

Definition lift {A : Type} (o : option A) : M A :=
  fun s => match o with Some a => (Done a, s, []) | None => (KeyError, s, []) end.

Definition emit (e : Event) : M unit := fun s => (Done tt, s, [e]).

Definition randint (w : World) (a b : Z) : M Z :=
  fun s => (Done (random_randint w (draws s) a b), mkRun (S (draws s)) (ticks s), []).

Definition uniform (w : World) (a b : Q) : M Q :=
  fun s => (Done (random_uniform w (draws s) a b), mkRun (S (draws s)) (ticks s), []).

Definition time (w : World) : M Q :=
  fun s => (Done (time_time w (ticks s)), mkRun (draws s) (S (ticks s)), []).

(** ** [find_placement] *)

Definition edge_configs : list Config :=
  [ ("v", "top"); ("v", "bottom"); ("h", "left"); ("h", "right") ]%string.

(** [edge_com_x] and [edge_com_y]: the two sums
    [sum(get_center_from_pos(name, pos)[k] for name, pos in positions.items())]. *)
Definition edge_com (positions : gmap string Pos) : option Point :=
  centers ← mapM (fun item => get_center_from_pos (fst item) (snd item))
                 (map_to_list positions);
  Some (Qsum (map fst centers), Qsum (map snd centers)).

(** The target center of the two internal components. *)
Definition target_center_of (edge_com_x edge_com_y : Q) : Point :=
  let target_sum_x := 125%Q in
  let target_sum_y := 125%Q in
  let internal_sum_x := (target_sum_x - edge_com_x)%Q in
  let internal_sum_y := (target_sum_y - edge_com_y)%Q in
  ((internal_sum_x / 2)%Q, (internal_sum_y / 2)%Q).

(** Step "Full validation" of the inner loop: the call to
    [utils.validate_placement], observed. *)
Definition validate (config : Config) (final_placement : gmap string Rect) : M bool :=
  let ok := fst (validate_placement final_placement) in
  _ <- emit (EvValidate config final_placement ok) ;;
  ret ok.

(** [for i in range(n)]: the local search around the target center. *)
Fixpoint search_around (w : World) (config : Config)
  (target_center_x target_center_y : Q) (mc_w mc_h cr_w cr_h : Z)
  (n : nat) (positions : gmap string Pos) : M (option (gmap string Pos)) :=
  match n with
  | O => ret None
  | S n' =>
      dx <- uniform w (-5) 5 ;;
      dy <- uniform w (-5) 5 ;;
      let mc_x := int (PrimFloat.add
                         (PrimFloat.sub (float_of_Q target_center_x)
                                        (float_of_Q (inject_Z mc_w / 2)))
                         (float_of_Q dx)) in
      let mc_y := int (PrimFloat.add
                         (PrimFloat.sub (float_of_Q target_center_y)
                                        (float_of_Q (inject_Z mc_h / 2)))
                         (float_of_Q dy)) in
      let mc_pos := (mc_x, mc_y, 0) in
      let positions := <["MICROCONTROLLER"%string := mc_pos]> positions in
      angle <- uniform w 0 (2 * math_pi) ;;
      dist <- uniform w 0 PROXIMITY_RADIUS ;;
      mc_center <- lift (get_center_from_pos "MICROCONTROLLER" mc_pos) ;;
      let cr_x := int (PrimFloat.sub
                         (PrimFloat.add
                            (float_of_Q (fst mc_center))
                            (PrimFloat.mul (float_of_Q dist)
                                           (float_of_Q (math_cos w angle))))
                         (float_of_Q (inject_Z cr_w / 2))) in
      let cr_y := int (PrimFloat.sub
                         (PrimFloat.add
                            (float_of_Q (snd mc_center))
                            (PrimFloat.mul (float_of_Q dist)
                                           (float_of_Q (math_sin w angle))))
                         (float_of_Q (inject_Z cr_h / 2))) in
      let positions := <["CRYSTAL"%string := (cr_x, cr_y, 0)]> positions in
      final_placement <- lift (_convert_to_util_format positions) ;;
      ok <- validate config final_placement ;;
      if ok then ret (Some positions)
      else search_around w config target_center_x target_center_y
                         mc_w mc_h cr_w cr_h n' positions
  end.

(** Step 1 of an outer attempt: place the MIKROBUS connectors. *)
Definition place_mikrobus (w : World) (mb_orientation : string)
  (positions : gmap string Pos) : M (gmap string Pos) :=
  size <- lift (COMPONENTS_SPECS !! "MIKROBUS_CONNECTOR_1"%string) ;;
  let '(w_, h_) := size in
  if String.eqb mb_orientation "v" then
    let '(rot, rw, rh) := (90, h_, w_) in
    y1 <- randint w 0 (50 - rh) ;;
    y2 <- randint w 0 (50 - rh) ;;
    ret (<["MIKROBUS_CONNECTOR_2"%string := (50 - rw, y2, rot)]>
         (<["MIKROBUS_CONNECTOR_1"%string := (0, y1, rot)]> positions))
  else
    let '(rot, rw, rh) := (0, w_, h_) in
    x1 <- randint w 0 (50 - rw) ;;
    x2 <- randint w 0 (50 - rw) ;;
    ret (<["MIKROBUS_CONNECTOR_2"%string := (x2, 50 - rh, rot)]>
         (<["MIKROBUS_CONNECTOR_1"%string := (x1, 0, rot)]> positions)).

(** Step 2: place the USB connector. *)
Definition place_usb (w : World) (usb_edge : string)
  (positions : gmap string Pos) : M (gmap string Pos) :=
  usb_size <- lift (COMPONENTS_SPECS !! "USB_CONNECTOR"%string) ;;
  let '(usb_w, usb_h) := usb_size in
  if String.eqb usb_edge "top" then
    r <- randint w 0 (50 - usb_w) ;;
    ret (<["USB_CONNECTOR"%string := (r, 0, 0)]> positions)
  else if String.eqb usb_edge "bottom" then
    r <- randint w 0 (50 - usb_w) ;;
    ret (<["USB_CONNECTOR"%string := (r, 50 - usb_h, 0)]> positions)
  else if String.eqb usb_edge "left" then
    r <- randint w 0 (50 - usb_h) ;;
    ret (<["USB_CONNECTOR"%string := (0, r, 0)]> positions)
  else
    r <- randint w 0 (50 - usb_h) ;;
    ret (<["USB_CONNECTOR"%string := (50 - usb_w, r, 0)]> positions).

(** The body of the [while] loop: one outer attempt (steps 1 to 4). *)
Definition attempt (w : World) (config : Config) : M (option (gmap string Pos)) :=
  let '(mb_orientation, usb_edge) := config in
  positions <- place_mikrobus w mb_orientation ∅ ;;
  positions <- place_usb w usb_edge positions ;;
  edge_com_xy <- lift (edge_com positions) ;;
  let '(edge_com_x, edge_com_y) := edge_com_xy in
  let '(target_center_x, target_center_y) := target_center_of edge_com_x edge_com_y in
  mc_size <- lift (COMPONENTS_SPECS !! "MICROCONTROLLER"%string) ;;
  let '(mc_w, mc_h) := mc_size in
  cr_size <- lift (COMPONENTS_SPECS !! "CRYSTAL"%string) ;;
  let '(cr_w, cr_h) := cr_size in
  search_around w config target_center_x target_center_y mc_w mc_h cr_w cr_h
                100 positions.

(** [time.time() - start_time < (utils.VALIDATION_TIME_LIMIT - 0.2)]. *)
Definition in_budget (start_time now : Q) : bool :=
  Qlt_bool (now - start_time) (VALIDATION_TIME_LIMIT - 2 / 10).

(** The [while] loop of one configuration; [fuel] bounds its iterations. *)
Fixpoint while_config (w : World) (start_time : Q) (config : Config) (fuel : nat)
  : M (option (gmap string Pos)) :=
  match fuel with
  | O => fun s => (OutOfFuel, s, [])
  | S fuel' =>
      now <- time w ;;
      _ <- emit (EvCheck config start_time now) ;;
      if in_budget start_time now then
        r <- attempt w config ;;
        match r with
        | Some positions => ret (Some positions)
        | None => while_config w start_time config fuel'
        end
      else ret None
  end.

(** [for mb_orientation, usb_edge in edge_configs]. *)
Fixpoint for_configs (w : World) (start_time : Q) (fuel : nat) (configs : list Config)
  : M (option (gmap string Pos)) :=
  match configs with
  | [] => ret None
  | config :: rest =>
      r <- while_config w start_time config fuel ;;
      match r with
      | Some positions => ret (Some positions)
      | None => for_configs w start_time fuel rest
      end
  end.

Definition find_placement (w : World) (fuel : nat) : M (option (gmap string Pos)) :=
  start_time <- time w ;;
  let edge_configs := random_shuffle w edge_configs in
  for_configs w start_time fuel edge_configs.

(** A run from the initial state. *)
Definition run_search (w : World) (fuel : nat)
  : Outcome (option (gmap string Pos)) * Run * list Event :=
  find_placement w fuel (mkRun 0 0).

(** ** Notions the properties are stated with *)

(** A point strictly inside a rectangle. *)
Definition in_interior (r : Rect) (p : Point) : Prop :=
  (inject_Z (comp_x r) < fst p /\ fst p < inject_Z (comp_x r + comp_w r) /\
   inject_Z (comp_y r) < snd p /\ snd p < inject_Z (comp_y r + comp_h r))%Q.

(** The four board edges, in the order of the keep-out rule. *)
Inductive Edge : Type := Top | Bottom | Left | Right.

Definition touches (e : Edge) (r : Rect) : bool :=
  match e with
  | Top => comp_y r =? 0
  | Bottom => comp_y r + comp_h r =? 50
  | Left => comp_x r =? 0
  | Right => comp_x r + comp_w r =? 50
  end.

Definition edges_touched (r : Rect) : list Edge :=
  filter (fun e => touches e r = true) [Top; Bottom; Left; Right].

(** [z] is the 10-wide, 20-deep rectangle that starts on edge [e] of the
    board, extends inward, and is centered along [e] on the center of
    [usb]. *)
Definition zone_anchored (e : Edge) (usb : Rect) (z : Zone) : Prop :=
  (match e with
   | Top =>
       zone_y z == 0 /\ zone_h z == 20 /\
       zone_w z == 10 /\ zone_x z + zone_w z / 2 == fst (_get_center usb)
   | Bottom =>
       zone_y z + zone_h z == 50 /\ zone_h z == 20 /\
       zone_w z == 10 /\ zone_x z + zone_w z / 2 == fst (_get_center usb)
   | Left =>
       zone_x z == 0 /\ zone_w z == 20 /\
       zone_h z == 10 /\ zone_y z + zone_h z / 2 == snd (_get_center usb)
   | Right =>
       zone_x z + zone_w z == 50 /\ zone_w z == 20 /\
       zone_h z == 10 /\ zone_y z + zone_h z / 2 == snd (_get_center usb)
   end)%Q.

(** The placement with the rectangles of the two MIKROBUS connectors
    exchanged. *)
Definition swap_mikrobus (placement : gmap string Rect) : gmap string Rect :=
  <["MIKROBUS_CONNECTOR_1"%string := placement !!! "MIKROBUS_CONNECTOR_2"%string]>
    (<["MIKROBUS_CONNECTOR_2"%string := placement !!! "MIKROBUS_CONNECTOR_1"%string]>
       placement).

(** The keys of [placement] are the five required kinds and nothing else. *)
Definition exactly_required (placement : gmap string Rect) : Prop :=
  forall key : string, is_Some (placement !! key) <-> In key required_keys.

(** Every name of [positions] has an entry in [COMPONENTS_SPECS]. *)
Definition known_keys (positions : gmap string Pos) : Prop :=
  forall name pos, positions !! name = Some pos -> is_Some (COMPONENTS_SPECS !! name).

(** All events of [ev] are validations of candidates of [config]. *)
Definition validations_only (config : Config) (ev : list Event) : Prop :=
  Forall (fun e => exists p ok, e = EvValidate config p ok) ev.


(** The number of candidates validated since the last evaluation of a
    [while] condition that found time remaining ([acc] counts those seen
    so far). *)
Fixpoint validations_since_check (acc : nat) (ev : list Event) : nat :=
  match ev with
  | [] => acc
  | EvCheck _ start_time now :: rest =>
      validations_since_check (if in_budget start_time now then 0%nat else acc) rest
  | EvValidate _ _ _ :: rest => validations_since_check (S acc) rest
  end.

(** The clock of [w] never runs backwards. *)
Definition clock_monotone (w : World) : Prop :=
  forall m n, (m <= n)%nat -> (time_time w m <= time_time w n)%Q.

(** From its [N]-th reading on, the clock of [w] is past the deadline. *)
Definition clock_expires (w : World) (N : nat) : Prop :=
  forall n, (N <= n)%nat -> in_budget (time_time w 0) (time_time w n) = false.

(** What the search promises of a returned [positions]: its conversion is
    accepted by the validator. *)
Definition accepted (positions : gmap string Pos) : Prop :=
  exists final_placement,
    _convert_to_util_format positions = Some final_placement /\
    fst (validate_placement final_placement) = true.

(** What one outer attempt of [config] does: it returns without raising
    and without reading the clock, every event is a validation of a
    candidate of [config], there are between 1 and [bound] of them, and a
    returned [positions] was accepted. *)
Definition attempt_outcome (config : Config) (bound : nat) (s : Run)
  (res : Outcome (option (gmap string Pos)) * Run * list Event) : Prop :=
  let '(o, s', ev) := res in
  ticks s' = ticks s /\ validations_only config ev /\
  (length ev <= bound)%nat /\
  exists r, o = Done r /\
            match r with
            | Some positions => accepted positions /\ (1 <= length ev)%nat
            | None => length ev = bound
            end.

(** A step that returns, writes no event and does not read the clock. *)
Definition silent {A : Type} (m : M A) (P : A -> Prop) : Prop :=
  forall s : Run, exists a s', m s = (Done a, s', []) /\ ticks s' = ticks s /\ P a.

(** ** Concrete placements and worlds *)

(** A placement that passes all seven rules. *)
Definition sample_placement : gmap string Rect :=
  <["CRYSTAL"%string := mkRect 28 26 5 5]>
  (<["MICROCONTROLLER"%string := mkRect 23 26 5 5]>
  (<["USB_CONNECTOR"%string := mkRect 20 0 5 5]>
  (<["MIKROBUS_CONNECTOR_2"%string := mkRect 35 30 15 5]>
  (<["MIKROBUS_CONNECTOR_1"%string := mkRect 0 30 15 5]> ∅)))).

(** The same with a sixth component. *)
Definition six_components : gmap string Rect :=
  <["LED"%string := mkRect 18 20 5 5]> sample_placement.

(** [sample_placement] with the USB connector in the top-left corner. *)
Definition corner_placement : gmap string Rect :=
  <["USB_CONNECTOR"%string := mkRect 0 0 5 5]> sample_placement.

(** [sample_placement] without its crystal. *)
Definition four_components : gmap string Rect :=
  delete "CRYSTAL"%string sample_placement.

(** The positions that convert to [sample_placement]. *)
Definition sample_positions : gmap string Pos :=
  <["CRYSTAL"%string := (28, 26, 0)]>
  (<["MICROCONTROLLER"%string := (23, 26, 0)]>
  (<["USB_CONNECTOR"%string := (20, 0, 0)]>
  (<["MIKROBUS_CONNECTOR_2"%string := (35, 30, 90)]>
  (<["MIKROBUS_CONNECTOR_1"%string := (0, 30, 90)]> ∅)))).

(** A world whose first candidate is [sample_placement]: the draws are
    y1 = 30, y2 = 30, the USB x = 20, dx = dy = 0, angle = 0, dist = 5, and
    the clock stands still. *)
Definition lucky_world : World :=
  mkWorld (fun configs => configs)
          (fun n _ _ => match n with 0%nat => 30 | 1%nat => 30 | 2%nat => 20 | _ => 0 end)
          (fun n _ _ => match n with 6%nat => 5%Q | _ => 0%Q end)
          (fun _ => 0%Q) (fun _ => 1%Q) (fun _ => 0%Q).

(** A world in which every draw is 0, so that every candidate overlaps,
    and whose clock reads 0, 0, 2, 2, ... *)
Definition stuck_world : World :=
  mkWorld (fun configs => configs) (fun _ _ _ => 0) (fun _ _ _ => 0%Q)
          (fun n => match n with 0%nat | 1%nat => 0%Q | _ => 2%Q end)
          (fun _ => 1%Q) (fun _ => 0%Q).

(** A world whose clock is past the deadline at the first check. *)
Definition late_world : World :=
  mkWorld (fun configs => configs) (fun _ _ _ => 0) (fun _ _ _ => 0%Q)
          (fun n => match n with 0%nat => 0%Q | _ => 2%Q end)
          (fun _ => 1%Q) (fun _ => 0%Q).

(** ** placement_utils.py: [plot_placement] and [score_placement] *)

(** [plot_placement]: the keep-out rectangle handed to
    [patches.Rectangle], as [(zone_props['xy'], zone_props['w'],
    zone_props['h'])]. *)
Definition zone_props (usb : Rect) : Point * Q * Q :=
  let zone_w := inject_Z (fst KEEPOUT_ZONE_DIMS) in
  let zone_h_inward := inject_Z (snd KEEPOUT_ZONE_DIMS) in
  let '(usb_cx, usb_cy) := _get_center usb in
  if comp_y usb =? 0 then
    (((usb_cx - zone_w / 2)%Q, 0%Q), zone_w, zone_h_inward)
  else if comp_y usb + comp_h usb =? snd BOARD_DIMS then
    (((usb_cx - zone_w / 2)%Q, (inject_Z (snd BOARD_DIMS) - zone_h_inward)%Q),
     zone_w, zone_h_inward)
  else if comp_x usb =? 0 then
    ((0%Q, (usb_cy - zone_w / 2)%Q), zone_h_inward, zone_w)
  else
    (((inject_Z (fst BOARD_DIMS) - zone_h_inward)%Q, (usb_cy - zone_w / 2)%Q),
     zone_h_inward, zone_w).

(** A point of the closed segment from [A] to [B]. *)
Definition on_segment (A B P : Point) : Prop :=
  exists t : Q, (0 <= t /\ t <= 1 /\
                 fst P == fst A + t * (fst B - fst A) /\
                 snd P == snd A + t * (snd B - snd A))%Q.

(** The boundary of the zone: its four edges, between the corners [tl],
    [tr], [br], [bl] of [validate_placement]. *)
Definition on_zone_boundary (zone : Zone) (P : Point) : Prop :=
  let tl := (zone_x zone, zone_y zone) in
  let tr := ((zone_x zone + zone_w zone)%Q, zone_y zone) in
  let bl := (zone_x zone, (zone_y zone + zone_h zone)%Q) in
  let br := ((zone_x zone + zone_w zone)%Q, (zone_y zone + zone_h zone)%Q) in
  on_segment tl tr P \/ on_segment tr br P \/ on_segment br bl P \/ on_segment bl tl P.

(** [min(...)] over a generator; [None] is the [ValueError] that an empty
    sequence raises. *)
Definition py_min (l : list Z) : option Z :=
  match l with
  | [] => None
  | a :: rest => Some (foldl Z.min a rest)
  end.

(** [max(...)], likewise. *)
Definition py_max (l : list Z) : option Z :=
  match l with
  | [] => None
  | a :: rest => Some (foldl Z.max a rest)
  end.

(** [min_x], [max_x], [min_y], [max_y] of [score_placement]. *)
Definition bounding_box (placement : gmap string Rect) : option (Z * Z * Z * Z) :=
  let values := (map_to_list placement).*2 in
  min_x ← py_min (map comp_x values);
  max_x ← py_max (map (fun c => comp_x c + comp_w c) values);
  min_y ← py_min (map comp_y values);
  max_y ← py_max (map (fun c => comp_y c + comp_h c) values);
  Some (min_x, max_x, min_y, max_y).

(** What a call of [score_placement] ends in.  The value returned is
    [total_score = bounding_box_area + centrality_score * 10]; as
    [centrality_score] is a square root, the result carries the two printed
    components, the second one squared. *)
Inductive ScoreResult : Type :=
| Scored (bounding_box_area : Z) (centrality_score_sq : Q)
| ScoreValueError     (* [min()] of an empty sequence *)
| ScoreKeyError.      (* [placement['MICROCONTROLLER']] *)

Definition score_placement (placement : gmap string Rect) : ScoreResult :=
  match bounding_box placement with
  | None => ScoreValueError
  | Some (min_x, max_x, min_y, max_y) =>
      let bounding_box_area := (max_x - min_x) * (max_y - min_y) in
      let board_center :=
        ((inject_Z (fst BOARD_DIMS) / 2)%Q, (inject_Z (snd BOARD_DIMS) / 2)%Q) in
      match placement !! "MICROCONTROLLER"%string with
      | None => ScoreKeyError
      | Some micro =>
          Scored bounding_box_area (_distance_sq (_get_center micro) board_center)
      end
  end.

(** [sample_placement] with the crystal moved across the keep-out zone:
    the segment between the two centers crosses the zone's right edge. *)
Definition blocked_placement : gmap string Rect :=
  <["CRYSTAL"%string := mkRect 20 10 5 5]>
  (<["MICROCONTROLLER"%string := mkRect 30 10 5 5]> sample_placement).

(** ** Notions for the further properties of the search *)

(** The rectangle [_convert_to_util_format] stores for one item; [None]
    is the [KeyError] of an unknown name. *)
Definition convert_pos (name : string) (pos : Pos) : option Rect :=
  let '(x, y, rot) := pos in
  '(w, h) ← rotated_size name rot;
  Some (mkRect x y w h).

(** [random.randint(a, b)] keeps its promise [a <= result <= b]. *)
Definition randint_in_range (w : World) : Prop :=
  forall n a b, a <= b -> a <= random_randint w n a b <= b.

(** No event of [ev] is the validation of an accepted candidate. *)
Definition all_rejected (ev : list Event) : Prop :=
  forall config p, ~ In (EvValidate config p true) ev.

(** The two MIKROBUS rectangles of a candidate, from the draws [r1], [r2]. *)
Definition mikrobus_rects (mb_orientation : string) (r1 r2 : Z) : Rect * Rect :=
  if String.eqb mb_orientation "v"
  then (mkRect 0 r1 15 5, mkRect 35 r2 15 5)
  else (mkRect r1 0 5 15, mkRect r2 35 5 15).

(** The USB rectangle of a candidate, from the draw [r]. *)
Definition usb_rect (usb_edge : string) (r : Z) : Rect :=
  if String.eqb usb_edge "top" then mkRect r 0 5 5
  else if String.eqb usb_edge "bottom" then mkRect r 45 5 5
  else if String.eqb usb_edge "left" then mkRect 0 r 5 5
  else mkRect 45 r 5 5.

(** The placement the search hands to the validator for configuration
    [config], draws [r1], [r2], [r3] and corners [mc], [cr] of the two
    internal components. *)
Definition candidate_placement (config : Config) (r1 r2 r3 : Z) (mc cr : Z * Z)
  : gmap string Rect :=
  <["CRYSTAL"%string := mkRect (fst cr) (snd cr) 5 5]>
  (<["MICROCONTROLLER"%string := mkRect (fst mc) (snd mc) 5 5]>
  (<["USB_CONNECTOR"%string := usb_rect (snd config) r3]>
  (<["MIKROBUS_CONNECTOR_2"%string := snd (mikrobus_rects (fst config) r1 r2)]>
  (<["MIKROBUS_CONNECTOR_1"%string := fst (mikrobus_rects (fst config) r1 r2)]> ∅)))).

(** [p] is a candidate of [config] in world [w]: its edge components come
    from three [randint(0, 45)] draws. *)
Definition candidate (w : World) (config : Config) (p : gmap string Rect) : Prop :=
  exists (n1 n2 n3 : nat) (mc cr : Z * Z),
    p = candidate_placement config
          (random_randint w n1 0 45) (random_randint w n2 0 45)
          (random_randint w n3 0 45) mc cr.

(** The same in the solver's format. *)
Definition mikrobus_pos (mb_orientation : string) (r1 r2 : Z) : Pos * Pos :=
  if String.eqb mb_orientation "v"
  then ((0, r1, 90), (35, r2, 90))
  else ((r1, 0, 0), (r2, 35, 0)).

Definition usb_pos (usb_edge : string) (r : Z) : Pos :=
  if String.eqb usb_edge "top" then (r, 0, 0)
  else if String.eqb usb_edge "bottom" then (r, 45, 0)
  else if String.eqb usb_edge "left" then (0, r, 0)
  else (45, r, 0).

Definition edge_positions (config : Config) (r1 r2 r3 : Z) : gmap string Pos :=
  <["USB_CONNECTOR"%string := usb_pos (snd config) r3]>
  (<["MIKROBUS_CONNECTOR_2"%string := snd (mikrobus_pos (fst config) r1 r2)]>
  (<["MIKROBUS_CONNECTOR_1"%string := fst (mikrobus_pos (fst config) r1 r2)]> ∅)).

Definition candidate_positions (config : Config) (r1 r2 r3 : Z) (mc cr : Z * Z)
  : gmap string Pos :=
  <["CRYSTAL"%string := (fst cr, snd cr, 0)]>
  (<["MICROCONTROLLER"%string := (fst mc, snd mc, 0)]>
  (edge_positions config r1 r2 r3)).

(** [positions] and [base] agree on every name but those of the two
    internal components. *)
Definition off_internal (positions base : gmap string Pos) : Prop :=
  forall name, name <> "MICROCONTROLLER"%string -> name <> "CRYSTAL"%string ->
               positions !! name = base !! name.

(** A run ends with a result exactly when its last event is the
    validation of an accepted candidate, the one it returns; no candidate
    before it was accepted. *)
Definition stops_at_first_accepted
  (o : Outcome (option (gmap string Pos))) (ev : list Event) : Prop :=
  (exists positions pre config p,
      o = Done (Some positions) /\ ev = pre ++ [EvValidate config p true] /\
      all_rejected pre /\ _convert_to_util_format positions = Some p) \/
  ((forall positions, o <> Done (Some positions)) /\ all_rejected ev).

(** What the trace of a run of world [w] is made of: checks, and
    validations of candidates recorded with the validator's verdict. *)
Definition event_ok (w : World) (e : Event) : Prop :=
  match e with
  | EvCheck _ _ _ => True
  | EvValidate config p ok => ok = fst (validate_placement p) /\ candidate w config p
  end.

(** [lucky_world] with a [randint] that clamps its value into [a, b]. *)
Definition fair_world : World :=
  mkWorld (fun configs => configs)
          (fun n a b =>
             Z.max a (Z.min b (match n with
                               | 0%nat => 30 | 1%nat => 30 | 2%nat => 20 | _ => 0
                               end)))
          (fun n _ _ => match n with 6%nat => 5%Q | _ => 0%Q end)
          (fun _ => 0%Q) (fun _ => 1%Q) (fun _ => 0%Q).

(** * Properties of the validator *)

(** [lra] after constant divisions are turned into products. *)
Ltac qlra := unfold Qdiv in *; cbn [Qinv Qnum Qden] in *; lra.

Lemma forallb_false_ex {A : Type} (f : A -> bool) (l : list A) :
  forallb f l = false <-> exists x, In x l /\ f x = false.
Proof.
  induction l as [| a l IH]; simpl.
  - split; [discriminate | intros (x & [] & _)].
  - rewrite andb_false_iff, IH. split.
    + intros [H | (x & Hin & Hx)]; eauto.
    + intros (x & [-> | Hin] & Hx); eauto.
Qed.

Lemma has_required_keys_false (placement : gmap string Rect) :
  has_required_keys placement = false <->
  exists key, In key required_keys /\ placement !! key = None.
Proof.
  unfold has_required_keys. rewrite forallb_false_ex.
  split; intros (key & Hin & H); exists key; split; try exact Hin.
  - apply bool_decide_eq_false in H. by apply eq_None_not_Some.
  - apply bool_decide_eq_false. by apply eq_None_not_Some.
Qed.

(** C2, as amended.  A placement that lacks one of the five required kinds
    is refused at once: the result is [False] and the only lines written are
    the header and the missing-component diagnostic, so none of the seven
    rules is reported. *)
Theorem validate_placement_missing_key (placement : gmap string Rect) :
  (exists key, In key required_keys /\ placement !! key = None) ->
  validate_placement placement = (false, [LineHeader; LineMissing]).
Proof.
  intros H. apply has_required_keys_false in H.
  unfold validate_placement. by rewrite H.
Qed.

Lemma validate_placement_missing_key_witness :
  validate_placement four_components = (false, [LineHeader; LineMissing]).
Proof.
  apply (validate_placement_missing_key four_components).
  exists "CRYSTAL"%string. split.
  - simpl. tauto.
  - vm_compute. reflexivity.
Defined.

(** C2, as stated, fails: [six_components] holds the five required kinds
    and a sixth one, so it does not hold exactly the five kinds, yet it is
    not refused; the seven rules are evaluated and written after the header,
    and here they all pass. *)
Lemma validate_placement_extra_key_not_refused :
  ~ exactly_required six_components /\
  fst (validate_placement six_components) = true /\
  length (snd (validate_placement six_components)) = 8%nat /\
  ~ (forall placement : gmap string Rect,
        ~ exactly_required placement ->
        validate_placement placement = (false, [LineHeader; LineMissing])).
Proof.
  assert (Hne : ~ exactly_required six_components).
  { intros E. destruct (E "LED"%string) as [E1 _].
    assert (Hin : In "LED"%string required_keys).
    { apply E1. vm_compute. eauto. }
    simpl in Hin. clear -Hin.
    repeat (destruct Hin as [Hin | Hin]; [discriminate Hin |]). exact Hin. }
  assert (Hfst : fst (validate_placement six_components) = true)
    by (vm_compute; reflexivity).
  split; [exact Hne |]. split; [exact Hfst |].
  split; [vm_compute; reflexivity |].
  intros H. rewrite (H six_components Hne) in Hfst. discriminate Hfst.
Qed.



(** ** The overlap test *)

Lemma overlap_test_true (a b : Rect) :
  overlap_test a b = true <->
  comp_x b < comp_x a + comp_w a /\ comp_x a < comp_x b + comp_w b /\
  comp_y b < comp_y a + comp_h a /\ comp_y a < comp_y b + comp_h b.
Proof.
  unfold overlap_test. rewrite negb_true_iff, !orb_false_iff, !Z.geb_leb.
  rewrite !Z.leb_gt. tauto.
Qed.

(** Two open intervals with integer ends that meet contain a common
    rational. *)
Lemma open_intervals_meet (l1 r1 l2 r2 : Z) :
  l1 < r2 -> l2 < r1 -> l1 < r1 -> l2 < r2 ->
  exists q : Q, (inject_Z l1 < q /\ q < inject_Z r1 /\
                 inject_Z l2 < q /\ q < inject_Z r2)%Q.
Proof.
  intros H12 H21 H1 H2.
  exists ((inject_Z (Z.max l1 l2) + inject_Z (Z.min r1 r2)) / 2)%Q.
  assert (Hlt : Z.max l1 l2 < Z.min r1 r2) by lia.
  assert (Hl1 : l1 <= Z.max l1 l2) by lia.
  assert (Hl2 : l2 <= Z.max l1 l2) by lia.
  assert (Hr1 : Z.min r1 r2 <= r1) by lia.
  assert (Hr2 : Z.min r1 r2 <= r2) by lia.
  rewrite Zlt_Qlt in Hlt. rewrite Zle_Qle in Hl1, Hl2, Hr1, Hr2.
  split; [| split; [| split]]; qlra.
Qed.

(** C4.  On rectangles of positive width and height the pairwise test of
    the no-overlap rule holds exactly when the open interiors share a
    point; rectangles that only share an edge or a corner have disjoint
    interiors and are not flagged. *)
Theorem overlap_test_open_interiors (a b : Rect) :
  0 < comp_w a -> 0 < comp_h a -> 0 < comp_w b -> 0 < comp_h b ->
  overlap_test a b = true <->
  exists p : Point, in_interior a p /\ in_interior b p.
Proof.
  intros Hwa Hha Hwb Hhb. rewrite overlap_test_true. split.
  - intros (Hx1 & Hx2 & Hy1 & Hy2).
    destruct (open_intervals_meet (comp_x a) (comp_x a + comp_w a)
                (comp_x b) (comp_x b + comp_w b)) as (px & Hpx); try lia.
    destruct (open_intervals_meet (comp_y a) (comp_y a + comp_h a)
                (comp_y b) (comp_y b + comp_h b)) as (py & Hpy); try lia.
    exists (px, py). unfold in_interior. simpl. tauto.
  - intros ([px py] & Ha & Hb). unfold in_interior in Ha, Hb. simpl in Ha, Hb.
    destruct Ha as (Ha1 & Ha2 & Ha3 & Ha4). destruct Hb as (Hb1 & Hb2 & Hb3 & Hb4).
    rewrite !Zlt_Qlt. split; [| split; [| split]]; lra.
Qed.

Lemma overlap_test_open_interiors_witness :
  overlap_test (mkRect 0 0 5 5) (mkRect 4 3 5 5) = true <->
  exists p : Point, in_interior (mkRect 0 0 5 5) p /\ in_interior (mkRect 4 3 5 5) p.
Proof.
  apply (overlap_test_open_interiors (mkRect 0 0 5 5) (mkRect 4 3 5 5)); simpl; lia.
Defined.

(** The example of the specification: [0,5] and [5,10] on the x axis, same
    y range, share an edge and are not flagged; [0,5] and [4,9] are. *)
Example overlap_test_touching :
  overlap_test (mkRect 0 0 5 5) (mkRect 5 0 5 5) = false /\
  overlap_test (mkRect 0 0 5 5) (mkRect 4 0 5 5) = true.
Proof. split; reflexivity. Qed.

(** ** The keep-out zone *)

Lemma get_center_fst (r : Rect) :
  fst (_get_center r) = (inject_Z (comp_x r) + inject_Z (comp_w r) / 2)%Q.
Proof. reflexivity. Qed.

Lemma get_center_snd (r : Rect) :
  snd (_get_center r) = (inject_Z (comp_y r) + inject_Z (comp_h r) / 2)%Q.
Proof. reflexivity. Qed.

(** The zone the chain builds in each of its four branches. *)
Lemma keepout_zone_branch (usb : Rect) :
  zone_anchored
    (if comp_y usb =? 0 then Top
     else if comp_y usb + comp_h usb =? 50 then Bottom
     else if comp_x usb =? 0 then Left else Right)
    usb (keepout_zone usb).
Proof.
  unfold keepout_zone, zone_anchored.
  rewrite get_center_fst, get_center_snd. unfold _get_center.
  destruct (comp_y usb =? 0); [| destruct (comp_y usb + comp_h usb =? 50);
                                 [| destruct (comp_x usb =? 0)]];
    cbn [zone_x zone_y zone_w zone_h KEEPOUT_ZONE_DIMS fst snd];
    (split; [| split; [| split]]); try reflexivity; field.
Qed.

(** C5.  A USB connector that touches two or more board edges gets the zone
    of the first edge it touches in the order top, bottom, left, right: a
    rectangle 10 wide along that edge, centered on the connector's center,
    reaching 20 inward from the edge; the keep-out rule is decided against
    that zone. *)
Theorem keepout_zone_priority (placement : gmap string Rect) (usb : Rect) :
  placement !! "USB_CONNECTOR"%string = Some usb ->
  (2 <= length (edges_touched usb))%nat ->
  exists e : Edge,
    head (edges_touched usb) = Some e /\
    zone_anchored e usb (keepout_zone usb) /\
    keepout_ok placement =
      negb (zone_intersects (keepout_zone usb)
              (_get_center (placement !!! "CRYSTAL"%string))
              (_get_center (placement !!! "MICROCONTROLLER"%string))).
Proof.
  intros Husb Hlen. pose proof (keepout_zone_branch usb) as Hz.
  assert (Hrule : keepout_ok placement =
                  negb (zone_intersects (keepout_zone usb)
                          (_get_center (placement !!! "CRYSTAL"%string))
                          (_get_center (placement !!! "MICROCONTROLLER"%string))))
    by (unfold keepout_ok; by rewrite (lookup_total_correct _ _ _ Husb)).
  revert Hrule. generalize (keepout_ok placement). intros verdict Hrule.
  unfold edges_touched in *.
  cbn [filter list_filter touches] in *.
  repeat case_decide; cbn [length head] in *;
    repeat match goal with
           | H : (_ =? _) = true |- _ => rewrite H in Hz
           | H : ~ (_ =? _) = true |- _ => apply not_true_is_false in H; rewrite H in Hz
           end;
    try (eexists; split; [reflexivity | split; [exact Hz | exact Hrule]]); lia.
Qed.

Lemma keepout_zone_priority_witness :
  exists e : Edge,
    head (edges_touched (mkRect 0 0 5 5)) = Some e /\
    zone_anchored e (mkRect 0 0 5 5) (keepout_zone (mkRect 0 0 5 5)) /\
    keepout_ok corner_placement =
      negb (zone_intersects (keepout_zone (mkRect 0 0 5 5))
              (_get_center (corner_placement !!! "CRYSTAL"%string))
              (_get_center (corner_placement !!! "MICROCONTROLLER"%string))).
Proof.
  apply (keepout_zone_priority corner_placement (mkRect 0 0 5 5)).
  - vm_compute. reflexivity.
  - vm_compute. lia.
Defined.

(** The corner of the specification: a USB connector at the top-left
    corner is handled as a top-edge connector. *)
Example keepout_zone_corner :
  head (edges_touched (mkRect 0 0 5 5)) = Some Top /\
  keepout_zone (mkRect 0 0 5 5) = mkZone (0 + 5 / 2 - 10 / 2) 0 10 20.
Proof. split; reflexivity. Qed.




(** ** The parallel-placement rule *)

(** C8.  Exchanging the rectangles of MIKROBUS_CONNECTOR_1 and
    MIKROBUS_CONNECTOR_2 does not change the verdict of the
    parallel-placement rule. *)
Theorem is_parallel_swap (placement : gmap string Rect) :
  has_required_keys placement = true ->
  is_parallel (swap_mikrobus placement) = is_parallel placement.
Proof.
  intros _. unfold is_parallel, swap_mikrobus.
  rewrite lookup_total_insert_eq.
  rewrite lookup_total_insert_ne by done.
  rewrite lookup_total_insert_eq.
  set (mb1 := placement !!! "MIKROBUS_CONNECTOR_1"%string).
  set (mb2 := placement !!! "MIKROBUS_CONNECTOR_2"%string).
  rewrite (Z.eqb_sym (comp_w mb2) (comp_w mb1)).
  destruct (comp_w mb1 =? comp_w mb2); [| reflexivity].
  destruct (comp_x mb1 =? 0), (comp_x mb2 + comp_w mb2 =? 50),
    (comp_x mb1 + comp_w mb1 =? 50), (comp_x mb2 =? 0),
    (comp_y mb1 =? 0), (comp_y mb2 + comp_h mb2 =? 50),
    (comp_y mb1 + comp_h mb1 =? 50), (comp_y mb2 =? 0); reflexivity.
Qed.

Lemma is_parallel_swap_witness :
  is_parallel (swap_mikrobus sample_placement) = is_parallel sample_placement.
Proof.
  apply (is_parallel_swap sample_placement). vm_compute. reflexivity.
Defined.

(** ** The balance target *)

(** C7.  Whatever the centers [c1], [c2], [c3] of the three edge
    components, if the centers of the two internal components both equal
    the target derived from them, the average of the five centers is
    (25, 25). *)
Theorem target_center_balances (c1 c2 c3 mc cr : Point) :
  let target :=
    target_center_of (Qsum [fst c1; fst c2; fst c3]) (Qsum [snd c1; snd c2; snd c3]) in
  (fst mc == fst target)%Q -> (snd mc == snd target)%Q ->
  (fst cr == fst target)%Q -> (snd cr == snd target)%Q ->
  (fst (com_of [c1; c2; c3; mc; cr]) == 25)%Q /\
  (snd (com_of [c1; c2; c3; mc; cr]) == 25)%Q.
Proof.
  intros target Hmx Hmy Hcx Hcy.
  unfold com_of, Qsum. cbn [map foldl length fst snd Z.of_nat Pos.of_succ_nat Pos.succ inject_Z].
  rewrite Hmx, Hmy, Hcx, Hcy.
  subst target. unfold target_center_of, Qsum. cbn [foldl fst snd].
  split; field.
Qed.

Lemma target_center_balances_witness :
  (fst (com_of [(10, 20); (40, 30); (15, 5); (30, 35); (30, 35)]%Q) == 25)%Q /\
  (snd (com_of [(10, 20); (40, 30); (15, 5); (30, 35); (30, 35)]%Q) == 25)%Q.
Proof.
  apply (target_center_balances (10, 20)%Q (40, 30)%Q (15, 5)%Q (30, 35)%Q (30, 35)%Q);
    vm_compute; reflexivity.
Defined.

(** ** The order in which a dict is traversed does not matter *)

Lemma overlap_test_sym (a b : Rect) : overlap_test a b = overlap_test b a.
Proof.
  apply eq_true_iff_eq. rewrite !overlap_test_true. tauto.
Qed.




Lemma Qsum_from (l : list Q) :
  forall acc, (foldl Qplus acc l == acc + foldr Qplus 0 l)%Q.
Proof.
  induction l as [| x l IH]; intros acc; simpl.
  - ring.
  - rewrite IH. ring.
Qed.

Lemma Qsum_Permutation (l l' : list Q) : l ≡ₚ l' -> (Qsum l == Qsum l')%Q.
Proof.
  intros Hp. unfold Qsum. rewrite !Qsum_from.
  apply Qplus_comp; [reflexivity |].
  induction Hp as [| x l l' _ IH | x y l | l l' l'' _ IH1 _ IH2]; simpl.
  - reflexivity.
  - by rewrite IH.
  - ring.
  - by rewrite IH1.
Qed.



(** * Properties of the search *)

(** ** The monad *)

Section monad_steps.
Context {B : Type}.
Variable k_unit : unit -> M B.

Lemma bind_lift_Some {A : Type} (a : A) (k : A -> M B) (s : Run) :
  bind (lift (Some a)) k s = k a s.
Proof. unfold bind, lift. by destruct (k a s) as [[? ?] ?]. Qed.

Lemma bind_randint (w : World) (a b : Z) (k : Z -> M B) (s : Run) :
  bind (randint w a b) k s =
  k (random_randint w (draws s) a b) (mkRun (S (draws s)) (ticks s)).
Proof. unfold bind, randint. by destruct (k _ _) as [[? ?] ?]. Qed.

Lemma bind_uniform (w : World) (a b : Q) (k : Q -> M B) (s : Run) :
  bind (uniform w a b) k s =
  k (random_uniform w (draws s) a b) (mkRun (S (draws s)) (ticks s)).
Proof. unfold bind, uniform. by destruct (k _ _) as [[? ?] ?]. Qed.

Lemma bind_time (w : World) (k : Q -> M B) (s : Run) :
  bind (time w) k s = k (time_time w (ticks s)) (mkRun (draws s) (S (ticks s))).
Proof. unfold bind, time. by destruct (k _ _) as [[? ?] ?]. Qed.

Lemma bind_emit (e : Event) (s : Run) :
  bind (emit e) k_unit s =
  match k_unit tt s with (o, s', ev) => (o, s', e :: ev) end.
Proof. reflexivity. Qed.

Lemma bind_validate (config : Config) (p : gmap string Rect) (k : bool -> M B) (s : Run) :
  bind (validate config p) k s =
  match k (fst (validate_placement p)) s with
  | (o, s', ev) => (o, s', EvValidate config p (fst (validate_placement p)) :: ev)
  end.
Proof.
  unfold validate, bind, emit, ret.
  by destruct (k _ _) as [[? ?] ?].
Qed.
End monad_steps.

(** ** Lookups in [COMPONENTS_SPECS] never fail inside the search *)

Lemma specs_usb : COMPONENTS_SPECS !! "USB_CONNECTOR"%string = Some (5, 5).
Proof. reflexivity. Qed.
Lemma specs_micro : COMPONENTS_SPECS !! "MICROCONTROLLER"%string = Some (5, 5).
Proof. reflexivity. Qed.
Lemma specs_crystal : COMPONENTS_SPECS !! "CRYSTAL"%string = Some (5, 5).
Proof. reflexivity. Qed.
Lemma specs_mb1 : COMPONENTS_SPECS !! "MIKROBUS_CONNECTOR_1"%string = Some (5, 15).
Proof. reflexivity. Qed.
Lemma specs_mb2 : COMPONENTS_SPECS !! "MIKROBUS_CONNECTOR_2"%string = Some (5, 15).
Proof. reflexivity. Qed.

Lemma rotated_size_known (name : string) (rot : Z) :
  is_Some (COMPONENTS_SPECS !! name) -> is_Some (rotated_size name rot).
Proof.
  intros [[w h] H]. unfold rotated_size. rewrite H. simpl. eauto.
Qed.

Lemma get_center_from_pos_known (name : string) (pos : Pos) :
  is_Some (COMPONENTS_SPECS !! name) -> is_Some (get_center_from_pos name pos).
Proof.
  intros H. destruct pos as [[x y] rot]. unfold get_center_from_pos.
  destruct (rotated_size_known name rot H) as [[w h] Hs]. rewrite Hs. simpl. eauto.
Qed.

(** The solver's center is the validator's center of the converted
    rectangle. *)
Lemma get_center_from_pos_convert (name : string) (x y rot w h : Z) :
  rotated_size name rot = Some (w, h) ->
  get_center_from_pos name (x, y, rot) = Some (_get_center (mkRect x y w h)).
Proof. intros H. unfold get_center_from_pos. rewrite H. reflexivity. Qed.

Lemma known_keys_empty : known_keys ∅.
Proof. intros name pos H. by rewrite lookup_empty in H. Qed.

Lemma known_keys_insert (name : string) (pos : Pos) (positions : gmap string Pos) :
  is_Some (COMPONENTS_SPECS !! name) -> known_keys positions ->
  known_keys (<[name := pos]> positions).
Proof.
  intros Hname Hk name' pos' H.
  destruct (decide (name = name')) as [<- | Hne]; [exact Hname |].
  rewrite lookup_insert_ne in H by done. eauto.
Qed.

Lemma known_keys_items (positions : gmap string Pos) :
  known_keys positions ->
  Forall (fun item => is_Some (COMPONENTS_SPECS !! fst item)) (map_to_list positions).
Proof.
  intros Hk. apply Forall_forall. intros [name pos] Hin.
  apply elem_of_map_to_list in Hin. simpl. eauto.
Qed.

Lemma convert_items_total (items : list (string * Pos)) :
  Forall (fun item => is_Some (COMPONENTS_SPECS !! fst item)) items ->
  forall acc, is_Some (foldl convert_item (Some acc) items).
Proof.
  induction 1 as [| [name [[x y] rot]] items Hname _ IH]; intros acc; simpl.
  - eauto.
  - destruct (rotated_size_known name rot Hname) as [[w h] Hs].
    rewrite Hs. simpl. apply IH.
Qed.

Lemma convert_total (positions : gmap string Pos) :
  known_keys positions -> is_Some (_convert_to_util_format positions).
Proof.
  intros Hk. apply convert_items_total. by apply known_keys_items.
Qed.

Lemma edge_com_total (positions : gmap string Pos) :
  known_keys positions -> is_Some (edge_com positions).
Proof.
  intros Hk. unfold edge_com.
  destruct (mapM_is_Some_2
              (fun item : string * Pos => get_center_from_pos (fst item) (snd item))
              (map_to_list positions)) as [centers Hc].
  - eapply Forall_impl; [by apply known_keys_items |].
    intros [name pos] H. by apply get_center_from_pos_known.
  - unfold Point in Hc. rewrite Hc. simpl. eauto.
Qed.

(** ** One outer attempt *)

Lemma bind_silent {A B : Type} (m : M A) (k : A -> M B) (s s' : Run) (a : A) :
  m s = (Done a, s', []) -> bind m k s = k a s'.
Proof. intros H. unfold bind. rewrite H. by destruct (k a s') as [[? ?] ?]. Qed.

Lemma bind_Done {A B : Type} (m : M A) (k : A -> M B) (s s' : Run) (a : A)
  (ev : list Event) :
  m s = (Done a, s', ev) ->
  bind m k s = match k a s' with (o, s'', ev2) => (o, s'', ev ++ ev2) end.
Proof. intros H. unfold bind. by rewrite H. Qed.

Lemma place_mikrobus_silent (w : World) (mb_orientation : string) :
  silent (place_mikrobus w mb_orientation ∅) known_keys.
Proof.
  intros s. unfold place_mikrobus.
  rewrite specs_mb1, bind_lift_Some.
  destruct (String.eqb mb_orientation "v"); cbv zeta iota beta;
    rewrite !bind_randint; unfold ret;
    (eexists; eexists; split; [reflexivity | split; [reflexivity |]]);
    (apply known_keys_insert; [rewrite specs_mb2; eauto |]);
    (apply known_keys_insert; [rewrite specs_mb1; eauto |]);
    apply known_keys_empty.
Qed.

Lemma place_usb_silent (w : World) (usb_edge : string) (positions : gmap string Pos) :
  known_keys positions -> silent (place_usb w usb_edge positions) known_keys.
Proof.
  intros Hk s. unfold place_usb.
  rewrite specs_usb, bind_lift_Some. cbv zeta iota beta.
  destruct (String.eqb usb_edge "top");
    [| destruct (String.eqb usb_edge "bottom");
       [| destruct (String.eqb usb_edge "left")]];
    rewrite bind_randint; unfold ret;
    (eexists; eexists; split; [reflexivity | split; [reflexivity |]]);
    (apply known_keys_insert; [rewrite specs_usb; eauto | exact Hk]).
Qed.

Lemma search_around_S (w : World) (config : Config) (tx ty : Q) (mc_w mc_h cr_w cr_h : Z)
  (n : nat) (positions : gmap string Pos) :
  search_around w config tx ty mc_w mc_h cr_w cr_h (S n) positions =
  (dx <- uniform w (-5) 5 ;;
   dy <- uniform w (-5) 5 ;;
   let mc_x := int (PrimFloat.add
                      (PrimFloat.sub (float_of_Q tx) (float_of_Q (inject_Z mc_w / 2)))
                      (float_of_Q dx)) in
   let mc_y := int (PrimFloat.add
                      (PrimFloat.sub (float_of_Q ty) (float_of_Q (inject_Z mc_h / 2)))
                      (float_of_Q dy)) in
   let mc_pos := (mc_x, mc_y, 0) in
   let positions := <["MICROCONTROLLER"%string := mc_pos]> positions in
   angle <- uniform w 0 (2 * math_pi) ;;
   dist <- uniform w 0 PROXIMITY_RADIUS ;;
   mc_center <- lift (get_center_from_pos "MICROCONTROLLER" mc_pos) ;;
   let cr_x := int (PrimFloat.sub
                      (PrimFloat.add (float_of_Q (fst mc_center))
                                     (PrimFloat.mul (float_of_Q dist)
                                                    (float_of_Q (math_cos w angle))))
                      (float_of_Q (inject_Z cr_w / 2))) in
   let cr_y := int (PrimFloat.sub
                      (PrimFloat.add (float_of_Q (snd mc_center))
                                     (PrimFloat.mul (float_of_Q dist)
                                                    (float_of_Q (math_sin w angle))))
                      (float_of_Q (inject_Z cr_h / 2))) in
   let positions := <["CRYSTAL"%string := (cr_x, cr_y, 0)]> positions in
   final_placement <- lift (_convert_to_util_format positions) ;;
   ok <- validate config final_placement ;;
   if ok then ret (Some positions)
   else search_around w config tx ty mc_w mc_h cr_w cr_h n positions).
Proof. reflexivity. Qed.

Lemma search_around_outcome (w : World) (config : Config) (tx ty : Q)
  (mc_w mc_h cr_w cr_h : Z) (n : nat) :
  forall (positions : gmap string Pos) (s : Run),
    known_keys positions ->
    attempt_outcome config n s
      (search_around w config tx ty mc_w mc_h cr_w cr_h n positions s).
Proof.
  induction n as [| n IH]; intros positions s Hk.
  - simpl. unfold ret, attempt_outcome.
    split; [reflexivity |]. split; [constructor |]. split; [simpl; lia |].
    exists None. by split.
  - rewrite search_around_S.
    rewrite bind_uniform; cbv beta. rewrite bind_uniform; cbv beta zeta.
    rewrite bind_uniform; cbv beta. rewrite bind_uniform; cbv beta.
    match goal with
    | |- context [lift (get_center_from_pos ?n ?p)] =>
        destruct (get_center_from_pos_known n p) as [mc_center Hc];
        [rewrite specs_micro; eauto | rewrite Hc]
    end.
    rewrite bind_lift_Some.
    match goal with
    | |- context [lift (_convert_to_util_format ?p)] =>
        assert (Hk' : known_keys p)
          by (apply known_keys_insert; [rewrite specs_crystal; eauto |];
              apply known_keys_insert; [rewrite specs_micro; eauto | exact Hk]);
        destruct (convert_total p Hk') as [final_placement Hconv];
        rewrite Hconv; set (positions' := p) in *
    end.
    rewrite bind_lift_Some, bind_validate.
    destruct (fst (validate_placement final_placement)) eqn:Hok.
    + unfold ret, attempt_outcome.
      split; [reflexivity |]. split; [repeat constructor; eauto |].
      split; [simpl; lia |]. eexists; split; [reflexivity |].
      split; [| simpl; lia]. exists final_placement. by split.
    + specialize (IH positions' (mkRun (S (S (S (S (draws s))))) (ticks s)) Hk').
      destruct (search_around _ _ _ _ _ _ _ _ _ _ _) as [[o s'] ev].
      unfold attempt_outcome in *.
      destruct IH as (Ht & Hv & Hlen & r & Ho & Hr).
      split; [exact Ht |]. split; [constructor; eauto |].
      split; [simpl; lia |]. exists r. split; [exact Ho |].
      destruct r; [split; [apply Hr | simpl; lia] | simpl; lia].
Qed.

Lemma attempt_outcome_100 (w : World) (config : Config) (s : Run) :
  attempt_outcome config 100 s (attempt w config s).
Proof.
  destruct config as [mb_orientation usb_edge]. unfold attempt.
  destruct (place_mikrobus_silent w mb_orientation s) as (p1 & s1 & H1 & Ht1 & Hk1).
  rewrite (bind_silent _ _ _ _ _ H1).
  destruct (place_usb_silent w usb_edge p1 Hk1 s1) as (p2 & s2 & H2 & Ht2 & Hk2).
  rewrite (bind_silent _ _ _ _ _ H2).
  destruct (edge_com_total p2 Hk2) as [[ex ey] He]. rewrite He, bind_lift_Some.
  destruct (target_center_of ex ey) as [tx ty].
  rewrite specs_micro, bind_lift_Some, specs_crystal, bind_lift_Some.
  pose proof (search_around_outcome w (mb_orientation, usb_edge) tx ty 5 5 5 5 100
                p2 s2 Hk2) as H.
  destruct (search_around _ _ _ _ _ _ _ _ _ _ _) as [[o s'] ev].
  unfold attempt_outcome in *. by rewrite <- Ht1, <- Ht2.
Qed.

(** ** The loops *)

(** One iteration of the [while] loop, by cases on the clock and on the
    outcome of the attempt. *)
Lemma while_config_step (w : World) (start_time : Q) (config : Config)
  (fuel : nat) (s : Run) :
  let now := time_time w (ticks s) in
  let s1 := mkRun (draws s) (S (ticks s)) in
  (in_budget start_time now = false /\
   while_config w start_time config (S fuel) s =
     (Done None, s1, [EvCheck config start_time now]))
  \/
  (in_budget start_time now = true /\
   exists s2 ev positions,
     ticks s2 = S (ticks s) /\ validations_only config ev /\
     (1 <= length ev <= 100)%nat /\ accepted positions /\
     while_config w start_time config (S fuel) s =
       (Done (Some positions), s2, EvCheck config start_time now :: ev))
  \/
  (in_budget start_time now = true /\
   exists s2 ev,
     ticks s2 = S (ticks s) /\ validations_only config ev /\ length ev = 100%nat /\
     while_config w start_time config (S fuel) s =
       match while_config w start_time config fuel s2 with
       | (o, s3, ev') => (o, s3, EvCheck config start_time now :: ev ++ ev')
       end).
Proof.
  intros now s1. cbn [while_config]. rewrite bind_time, bind_emit.
  fold now s1. destruct (in_budget start_time now) eqn:Hb.
  - right. pose proof (attempt_outcome_100 w config s1) as H.
    destruct (attempt w config s1) as [[o s2] ev] eqn:Ha.
    destruct H as (Ht & Hv & Hlen & r & -> & Hr).
    rewrite (bind_Done _ _ _ _ _ _ Ha). destruct r as [positions |].
    + left. split; [reflexivity |]. exists s2, ev, positions.
      unfold ret. rewrite app_nil_r. destruct Hr as [Hacc Hone].
      split; [exact Ht |]. split; [exact Hv |]. split; [lia |].
      split; [exact Hacc | reflexivity].
    + right. split; [reflexivity |]. exists s2, ev.
      split; [exact Ht |]. split; [exact Hv |]. split; [exact Hr |].
      by destruct (while_config w start_time config fuel s2) as [[o s3] ev'].
  - left. split; reflexivity.
Qed.

(** Induction over the iterations of the [while] loop of one
    configuration. *)
Lemma while_config_induction (w : World) (start_time : Q) (config : Config)
  (P : nat -> Run -> Outcome (option (gmap string Pos)) * Run * list Event -> Prop) :
  (forall s, P O s (OutOfFuel, s, [])) ->
  (forall fuel s,
      in_budget start_time (time_time w (ticks s)) = false ->
      P (S fuel) s (Done None, mkRun (draws s) (S (ticks s)),
                    [EvCheck config start_time (time_time w (ticks s))])) ->
  (forall fuel s s2 ev positions,
      in_budget start_time (time_time w (ticks s)) = true ->
      ticks s2 = S (ticks s) -> validations_only config ev ->
      (1 <= length ev <= 100)%nat -> accepted positions ->
      P (S fuel) s (Done (Some positions), s2,
                    EvCheck config start_time (time_time w (ticks s)) :: ev)) ->
  (forall fuel s s2 ev o s3 ev',
      in_budget start_time (time_time w (ticks s)) = true ->
      ticks s2 = S (ticks s) -> validations_only config ev ->
      length ev = 100%nat ->
      P fuel s2 (o, s3, ev') ->
      P (S fuel) s (o, s3, EvCheck config start_time (time_time w (ticks s)) :: ev ++ ev')) ->
  forall fuel s, P fuel s (while_config w start_time config fuel s).
Proof.
  intros H0 Hout Hfound Hagain. induction fuel as [| fuel IH]; intros s.
  - apply H0.
  - destruct (while_config_step w start_time config fuel s)
      as [[Hb ->] | [(Hb & s2 & ev & positions & Ht & Hv & Hlen & Hacc & ->)
                    | (Hb & s2 & ev & Ht & Hv & Hlen & ->)]].
    + by apply Hout.
    + by apply (Hfound fuel s s2 ev positions).
    + specialize (IH s2).
      destruct (while_config w start_time config fuel s2) as [[o s3] ev'].
      by apply (Hagain fuel s s2 ev o s3 ev').
Qed.


Lemma validations_since_check_app (ev1 ev2 : list Event) :
  forall acc,
    validations_since_check acc (ev1 ++ ev2) =
    validations_since_check (validations_since_check acc ev1) ev2.
Proof.
  induction ev1 as [| [c st now | c p ok] ev1 IH]; intros acc; simpl; auto.
Qed.

Lemma validations_since_check_validations (config : Config) (ev : list Event) :
  validations_only config ev ->
  forall acc, validations_since_check acc ev = (acc + length ev)%nat.
Proof.
  induction 1 as [| e ev (p & ok & ->) _ IH]; intros acc; simpl.
  - lia.
  - rewrite IH. lia.
Qed.

(** *** Facts about the [while] loop of one configuration *)

Section while_config_facts.
Variables (w : World) (start_time : Q) (config : Config).

Lemma while_config_accepted (fuel : nat) (s : Run) :
  forall positions, (while_config w start_time config fuel s).1.1 = Done (Some positions) -> accepted positions.
Proof.
  apply (while_config_induction w start_time config
           (fun _ _ res => forall positions,
                res.1.1 = Done (Some positions) -> accepted positions));
    simpl; try discriminate; try congruence; auto.
Qed.

Lemma while_config_no_KeyError (fuel : nat) (s : Run) :
  (while_config w start_time config fuel s).1.1 <> KeyError.
Proof.
  apply (while_config_induction w start_time config
           (fun _ _ res => res.1.1 <> KeyError)); simpl; try discriminate; auto.
Qed.

Lemma while_config_ticks (fuel : nat) (s : Run) :
  (ticks s <= ticks (while_config w start_time config fuel s).1.2)%nat.
Proof.
  apply (while_config_induction w start_time config
           (fun _ s res => (ticks s <= ticks res.1.2)%nat)); simpl; intros; lia.
Qed.



Lemma while_config_overshoot (fuel : nat) (s : Run) :
  forall acc, (acc <= 100)%nat ->
              (validations_since_check acc (while_config w start_time config fuel s).2 <= 100)%nat.
Proof.
  apply (while_config_induction w start_time config
           (fun _ _ res => forall acc, (acc <= 100)%nat ->
              (validations_since_check acc res.2 <= 100)%nat)); simpl.
  - auto.
  - intros _ s0 -> acc Hacc. exact Hacc.
  - intros _ s0 s2 ev positions -> _ Hv Hlen _ acc _.
    rewrite (validations_since_check_validations config) by exact Hv. lia.
  - intros _ s0 s2 ev o s3 ev' -> _ Hv Hlen IH acc _.
    rewrite validations_since_check_app.
    apply IH. rewrite (validations_since_check_validations config) by exact Hv. lia.
Qed.

Lemma while_config_returns (N fuel : nat) (s : Run) :
  (forall n, (N <= n)%nat -> in_budget start_time (time_time w n) = false) ->
  (1 <= fuel)%nat -> (N < fuel + ticks s)%nat ->
  exists r, (while_config w start_time config fuel s).1.1 = Done r.
Proof.
  intros Hclock.
  apply (while_config_induction w start_time config
           (fun fuel s res => (1 <= fuel)%nat -> (N < fuel + ticks s)%nat ->
                              exists r, res.1.1 = Done r)); simpl.
  - intros; lia.
  - eauto.
  - eauto.
  - intros fuel0 s0 s2 ev o s3 ev' Hb Ht _ _ IH _ Hlt.
    apply IH; [| lia].
    destruct fuel0; [| lia]. exfalso.
    rewrite Hclock in Hb by lia. discriminate.
Qed.
End while_config_facts.

(** *** Facts about the [for] loop over the configurations *)

Section for_configs_facts.
Variables (w : World) (start_time : Q) (fuel : nat).

Lemma for_configs_cons (config : Config) (rest : list Config) (s : Run) :
  for_configs w start_time fuel (config :: rest) s =
  match while_config w start_time config fuel s with
  | (Done (Some positions), s1, ev) => (Done (Some positions), s1, ev)
  | (Done None, s1, ev) =>
      match for_configs w start_time fuel rest s1 with
      | (o, s2, ev') => (o, s2, ev ++ ev')
      end
  | (KeyError, s1, ev) => (KeyError, s1, ev)
  | (OutOfFuel, s1, ev) => (OutOfFuel, s1, ev)
  end.
Proof.
  cbn [for_configs]. unfold bind at 1.
  destruct (while_config w start_time config fuel s) as [[[[positions |] | |] s1] ev];
    try reflexivity.
  unfold ret. by rewrite app_nil_r.
Qed.

(** Induction over the configurations the loop goes through. *)
Lemma for_configs_induction
  (P : list Config -> Run -> Outcome (option (gmap string Pos)) * Run * list Event -> Prop) :
  (forall s, P [] s (Done None, s, [])) ->
  (forall config rest s s1 ev positions,
      while_config w start_time config fuel s = (Done (Some positions), s1, ev) ->
      P (config :: rest) s (Done (Some positions), s1, ev)) ->
  (forall config rest s s1 ev,
      while_config w start_time config fuel s = (OutOfFuel, s1, ev) ->
      P (config :: rest) s (OutOfFuel, s1, ev)) ->
  (forall config rest s s1 ev o s2 ev',
      while_config w start_time config fuel s = (Done None, s1, ev) ->
      P rest s1 (o, s2, ev') ->
      P (config :: rest) s (o, s2, ev ++ ev')) ->
  forall configs s, P configs s (for_configs w start_time fuel configs s).
Proof.
  intros Hnil Hfound Hfuel Hnext. induction configs as [| config rest IH]; intros s.
  - apply Hnil.
  - rewrite for_configs_cons.
    pose proof (while_config_no_KeyError w start_time config fuel s) as Hno.
    destruct (while_config w start_time config fuel s)
      as [[[[positions |] | |] s1] ev] eqn:Hw.
    + by apply Hfound.
    + specialize (IH s1).
      destruct (for_configs w start_time fuel rest s1) as [[o s2] ev'].
      by apply (Hnext config rest s s1 ev o s2 ev').
    + by destruct Hno.
    + by apply Hfuel.
Qed.

Lemma for_configs_accepted (configs : list Config) (s : Run) :
  forall positions,
    (for_configs w start_time fuel configs s).1.1 = Done (Some positions) ->
    accepted positions.
Proof.
  apply (for_configs_induction
           (fun _ _ res => forall positions,
                res.1.1 = Done (Some positions) -> accepted positions));
    simpl; try discriminate; auto.
  intros config rest s0 s1 ev positions Hw positions' [= <-].
  apply (while_config_accepted w start_time config fuel s0). by rewrite Hw.
Qed.



Lemma for_configs_overshoot (configs : list Config) (s : Run) :
  forall acc, (acc <= 100)%nat ->
    (validations_since_check acc (for_configs w start_time fuel configs s).2 <= 100)%nat.
Proof.
  apply (for_configs_induction
           (fun _ _ res => forall acc, (acc <= 100)%nat ->
              (validations_since_check acc res.2 <= 100)%nat)); simpl.
  - auto.
  - intros config rest s0 s1 ev positions Hw acc Hacc.
    pose proof (while_config_overshoot w start_time config fuel s0 acc Hacc) as H.
    by rewrite Hw in H.
  - intros config rest s0 s1 ev Hw acc Hacc.
    pose proof (while_config_overshoot w start_time config fuel s0 acc Hacc) as H.
    by rewrite Hw in H.
  - intros config rest s0 s1 ev o s2 ev' Hw IH acc Hacc.
    rewrite validations_since_check_app. apply IH.
    pose proof (while_config_overshoot w start_time config fuel s0 acc Hacc) as H.
    by rewrite Hw in H.
Qed.

Lemma for_configs_returns (N : nat) (configs : list Config) (s : Run) :
  (forall n, (N <= n)%nat -> in_budget start_time (time_time w n) = false) ->
  (1 <= fuel)%nat -> (N < fuel + ticks s)%nat ->
  exists r, (for_configs w start_time fuel configs s).1.1 = Done r.
Proof.
  intros Hclock Hfuel.
  apply (for_configs_induction
           (fun _ s res => (N < fuel + ticks s)%nat -> exists r, res.1.1 = Done r));
    simpl; eauto.
  - intros config rest s0 s1 ev Hw Hlt.
    destruct (while_config_returns w start_time config N fuel s0 Hclock Hfuel Hlt)
      as [r Hr].
    rewrite Hw in Hr. discriminate.
  - intros config rest s0 s1 ev o s2 ev' Hw IH Hlt. apply IH.
    pose proof (while_config_ticks w start_time config fuel s0) as H.
    rewrite Hw in H. simpl in H. lia.
Qed.
End for_configs_facts.

(** ** [find_placement] *)

Lemma run_search_unfold (w : World) (fuel : nat) :
  run_search w fuel =
  for_configs w (time_time w 0) fuel (random_shuffle w edge_configs) (mkRun 0 1).
Proof. unfold run_search, find_placement. by rewrite bind_time. Qed.


(** C1.  Whatever the random draws and the clock readings, a result that
    [find_placement] returns converts to a placement that
    [validate_placement] accepts. *)
Theorem find_placement_returns_valid (w : World) (fuel : nat)
  (positions : gmap string Pos) :
  (run_search w fuel).1.1 = Done (Some positions) ->
  exists final_placement,
    _convert_to_util_format positions = Some final_placement /\
    fst (validate_placement final_placement) = true.
Proof.
  rewrite run_search_unfold. apply for_configs_accepted.
Qed.

Lemma find_placement_returns_valid_witness :
  exists final_placement,
    _convert_to_util_format sample_positions = Some final_placement /\
    fst (validate_placement final_placement) = true.
Proof.
  apply (find_placement_returns_valid lucky_world 1 sample_positions).
  vm_compute. reflexivity.
Defined.



(** C9, as amended.  If the clock is past the deadline from some reading
    on, [find_placement] returns, and at most 100 candidates (one outer
    attempt) are validated after the last evaluation of a [while] condition
    that found time remaining. *)
Theorem find_placement_overshoot (w : World) (N fuel : nat) :
  clock_expires w N -> (N < fuel)%nat ->
  (exists r, (run_search w fuel).1.1 = Done r) /\
  (validations_since_check 0 (run_search w fuel).2 <= 100)%nat.
Proof.
  intros Hclock Hfuel. rewrite run_search_unfold. split.
  - apply (for_configs_returns w (time_time w 0) fuel N); [exact Hclock | lia | simpl; lia].
  - apply for_configs_overshoot. lia.
Qed.

Lemma find_placement_overshoot_witness :
  (exists r, (run_search stuck_world 5).1.1 = Done r) /\
  (validations_since_check 0 (run_search stuck_world 5).2 <= 100)%nat.
Proof.
  apply (find_placement_overshoot stuck_world 2 5).
  - intros n Hn. destruct n as [| [| n]]; [lia | lia | reflexivity].
  - lia.
Defined.

(** C9, as stated, fails.  In [stuck_world] the clock reads 0 at the start
    and at the first check, every candidate overlaps, and the clock is next
    read after the whole inner loop: the search returns [None] with 100
    candidates validated after the only check that found time remaining,
    not one. *)
Lemma find_placement_overshoot_not_one :
  (run_search stuck_world 5).1.1 = Done None /\
  validations_since_check 0 (run_search stuck_world 5).2 = 100%nat /\
  ~ (forall (w : World) (fuel : nat) r,
        (run_search w fuel).1.1 = Done r ->
        (validations_since_check 0 (run_search w fuel).2 <= 1)%nat).
Proof.
  assert (Hret : (run_search stuck_world 5).1.1 = Done None)
    by (vm_compute; reflexivity).
  assert (Hcount : validations_since_check 0 (run_search stuck_world 5).2 = 100%nat)
    by (vm_compute; reflexivity).
  split; [exact Hret |]. split; [exact Hcount |].
  intros H. specialize (H stuck_world 5%nat None Hret).
  rewrite Hcount in H. lia.
Qed.

(** ** Under a clock that never runs backwards *)

Lemma in_budget_later (start_time a b : Q) :
  (a <= b)%Q -> in_budget start_time a = false -> in_budget start_time b = false.
Proof.
  unfold in_budget, Qlt_bool. rewrite !negb_false_iff, !Qle_bool_iff. intros Hab Ha. lra.
Qed.

Lemma while_config_validates_own (w : World) (start_time : Q) (config : Config)
  (fuel : nat) (s : Run) :
  forall config' p ok,
    In (EvValidate config' p ok) (while_config w start_time config fuel s).2 ->
    config' = config.
Proof.
  assert (Hown : forall ev config' p ok,
             validations_only config ev -> In (EvValidate config' p ok) ev ->
             config' = config).
  { intros ev config' p ok Hv Hin. unfold validations_only in Hv.
    rewrite Forall_forall in Hv. apply list_elem_of_In in Hin.
    destruct (Hv _ Hin) as (p' & ok' & [= -> _ _]). reflexivity. }
  apply (while_config_induction w start_time config
           (fun _ _ res => forall config' p ok,
                In (EvValidate config' p ok) res.2 -> config' = config)); simpl.
  - intros s0 config' p ok [].
  - intros fuel0 s0 Hb config' p ok [H | []]. discriminate H.
  - intros fuel0 s0 s2 ev positions Hb Ht Hv Hlen Hacc config' p ok [H | Hin];
      [discriminate H | eauto].
  - intros fuel0 s0 s2 ev o s3 ev' Hb Ht Hv Hlen IH config' p ok [H | Hin];
      [discriminate H |].
    apply in_app_or in Hin. destruct Hin; eauto.
Qed.

Lemma while_config_expired (w : World) (start_time : Q) (config : Config)
  (fuel : nat) (s : Run) :
  (forall n, (ticks s <= n)%nat -> in_budget start_time (time_time w n) = false) ->
  forall config' p ok,
    ~ In (EvValidate config' p ok) (while_config w start_time config fuel s).2.
Proof.
  apply (while_config_induction w start_time config
           (fun _ s res =>
              (forall n, (ticks s <= n)%nat ->
                         in_budget start_time (time_time w n) = false) ->
              forall config' p ok, ~ In (EvValidate config' p ok) res.2)); simpl.
  - intros s0 Hexp config' p ok [].
  - intros fuel0 s0 Hb Hexp config' p ok [H | []]. discriminate H.
  - intros fuel0 s0 s2 ev positions Hb Ht Hv Hlen Hacc Hexp.
    rewrite Hexp in Hb by lia. discriminate Hb.
  - intros fuel0 s0 s2 ev o s3 ev' Hb Ht Hv Hlen IH Hexp.
    rewrite Hexp in Hb by lia. discriminate Hb.
Qed.

Lemma while_config_None_expired (w : World) (start_time : Q) (config : Config)
  (fuel : nat) (s : Run) :
  (while_config w start_time config fuel s).1.1 = Done None ->
  exists k, (k < ticks (while_config w start_time config fuel s).1.2)%nat /\
            in_budget start_time (time_time w k) = false.
Proof.
  apply (while_config_induction w start_time config
           (fun _ _ res => res.1.1 = Done None ->
              exists k, (k < ticks res.1.2)%nat /\
                        in_budget start_time (time_time w k) = false));
    simpl; try discriminate; auto.
  intros fuel0 s0 Hb _. exists (ticks s0). split; [lia | exact Hb].
Qed.

Lemma for_configs_expired (w : World) (start_time : Q) (fuel : nat)
  (configs : list Config) (s : Run) :
  (forall n, (ticks s <= n)%nat -> in_budget start_time (time_time w n) = false) ->
  forall config' p ok,
    ~ In (EvValidate config' p ok) (for_configs w start_time fuel configs s).2.
Proof.
  apply (for_configs_induction w start_time fuel
           (fun _ s res =>
              (forall n, (ticks s <= n)%nat ->
                         in_budget start_time (time_time w n) = false) ->
              forall config' p ok, ~ In (EvValidate config' p ok) res.2)); simpl.
  - intros s0 Hexp config' p ok [].
  - intros config rest s0 s1 ev positions Hw Hexp config' p ok.
    pose proof (while_config_expired w start_time config fuel s0 Hexp config' p ok) as H.
    by rewrite Hw in H.
  - intros config rest s0 s1 ev Hw Hexp config' p ok.
    pose proof (while_config_expired w start_time config fuel s0 Hexp config' p ok) as H.
    by rewrite Hw in H.
  - intros config rest s0 s1 ev o s2 ev' Hw IH Hexp config' p ok Hin.
    apply in_app_or in Hin. destruct Hin as [Hin | Hin].
    + pose proof (while_config_expired w start_time config fuel s0 Hexp config' p ok) as H.
      rewrite Hw in H. by apply H.
    + apply (IH ltac:(intros n Hn; apply Hexp;
                      pose proof (while_config_ticks w start_time config fuel s0) as Ht;
                      rewrite Hw in Ht; simpl in Ht; lia) config' p ok Hin).
Qed.

(** X23.  The [while] loop of a configuration is left without a result
    only once the clock is past the deadline.  So when the clock never runs
    backwards, every candidate that a run validates belongs to the first
    configuration of the shuffled list: the later configurations are
    reached with no time remaining. *)
Lemma only_first_configuration_attempted (w : World) (fuel : nat) :
  clock_monotone w ->
  forall config p ok,
    In (EvValidate config p ok) (run_search w fuel).2 ->
    head (random_shuffle w edge_configs) = Some config.
Proof.
  intros Hmono config p ok. rewrite run_search_unfold.
  destruct (random_shuffle w edge_configs) as [| first rest]; [intros [] |].
  rewrite for_configs_cons.
  pose proof (while_config_validates_own w (time_time w 0) first fuel (mkRun 0 1)
                config p ok) as Hown.
  pose proof (while_config_None_expired w (time_time w 0) first fuel (mkRun 0 1)) as Hexp.
  destruct (while_config w (time_time w 0) first fuel (mkRun 0 1))
    as [[[[positions |] | |] s1] ev]; simpl in *;
    try (intros Hin; by rewrite (Hown Hin)).
  destruct (Hexp eq_refl) as (k & Hk & Hb).
  pose proof (for_configs_expired w (time_time w 0) fuel rest s1) as Hrest.
  destruct (for_configs w (time_time w 0) fuel rest s1) as [[o s2] ev']. simpl in *.
  intros Hin. apply in_app_or in Hin. destruct Hin as [Hin | Hin].
  - by rewrite (Hown Hin).
  - exfalso. apply (Hrest ltac:(intros n Hn; apply (in_budget_later _ (time_time w k));
                                [apply Hmono; lia | exact Hb]) config p ok Hin).
Qed.

(** * Further properties of the validator *)

(** ** Rules 1 to 4 *)

Lemma in_bounds_true (comp : Rect) :
  in_bounds comp = true <->
  0 <= comp_x comp /\ 0 <= comp_y comp /\
  comp_x comp + comp_w comp <= 50 /\ comp_y comp + comp_h comp <= 50.
Proof.
  unfold in_bounds. cbn [BOARD_DIMS fst snd].
  rewrite !andb_true_iff, !Z.leb_le. tauto.
Qed.

Lemma all_in_bounds_components (placement : gmap string Rect) :
  all_in_bounds placement = true ->
  forall name comp, placement !! name = Some comp ->
    0 <= comp_x comp /\ 0 <= comp_y comp /\
    comp_x comp + comp_w comp <= 50 /\ comp_y comp + comp_h comp <= 50.
Proof.
  unfold all_in_bounds. rewrite forallb_forall.
  intros H name comp Hl. apply in_bounds_true. apply H.
  apply list_elem_of_In. apply list_elem_of_fmap. exists (name, comp).
  split; [reflexivity | by apply elem_of_map_to_list].
Qed.

(** X1.  The boundary rule passes exactly when every rectangle of the
    placement, whatever its name, lies within the 50 by 50 board. *)
Theorem all_in_bounds_iff (placement : gmap string Rect) :
  all_in_bounds placement = true <->
  forall name comp, placement !! name = Some comp ->
    0 <= comp_x comp /\ 0 <= comp_y comp /\
    comp_x comp + comp_w comp <= 50 /\ comp_y comp + comp_h comp <= 50.
Proof.
  split; [apply all_in_bounds_components |].
  unfold all_in_bounds. rewrite forallb_forall.
  - intros H comp Hin. apply list_elem_of_In, list_elem_of_fmap in Hin.
    destruct Hin as ([name comp'] & -> & Hin). apply elem_of_map_to_list in Hin.
    apply in_bounds_true. eauto.
Qed.

Lemma any_pair_true_ex {A : Type} (f : A -> A -> bool) (l : list A) :
  any_pair f l = true ->
  exists l1 a l2 b l3, l = l1 ++ a :: l2 ++ b :: l3 /\ f a b = true.
Proof.
  induction l as [| x l IH]; simpl; [discriminate |].
  rewrite orb_true_iff. intros [H | H].
  - apply existsb_exists in H. destruct H as (b & Hin & Hf).
    apply in_split in Hin. destruct Hin as (l2 & l3 & ->).
    by exists [], x, l2, b, l3.
  - destruct (IH H) as (l1 & a & l2 & b & l3 & -> & Hf).
    by exists (x :: l1), a, l2, b, l3.
Qed.

Lemma any_pair_of_two {A : Type} (f : A -> A -> bool) (l : list A) (x y : A) :
  (forall a b, f a b = f b a) ->
  In x l -> In y l -> x <> y -> f x y = true -> any_pair f l = true.
Proof.
  intros Hsym. induction l as [| a l IH]; simpl; [tauto |].
  intros [-> | Hx] [-> | Hy] Hne Hf; try congruence; apply orb_true_iff.
  - left. apply existsb_exists. eauto.
  - left. apply existsb_exists. exists x. by rewrite Hsym.
  - right. auto.
Qed.

(** X2.  The no-overlap rule fails exactly when two differently named
    rectangles of the placement pass the pairwise overlap test. *)
Theorem overlap_found_iff (placement : gmap string Rect) :
  overlap_found placement = true <->
  exists n1 n2 a b,
    n1 <> n2 /\ placement !! n1 = Some a /\ placement !! n2 = Some b /\
    overlap_test a b = true.
Proof.
  unfold overlap_found. split.
  - intros H. apply any_pair_true_ex in H.
    destruct H as (l1 & [n1 a] & l2 & [n2 b] & l3 & Hl & Hf). simpl in Hf.
    pose proof (NoDup_fst_map_to_list placement) as Hnd.
    assert (H1 : (n1, a) ∈ map_to_list placement)
      by (rewrite Hl; set_solver).
    assert (H2 : (n2, b) ∈ map_to_list placement)
      by (rewrite Hl; set_solver).
    apply elem_of_map_to_list in H1, H2.
    exists n1, n2, a, b. split; [| by repeat split].
    rewrite Hl in Hnd. rewrite fmap_app, fmap_cons, fmap_app, fmap_cons in Hnd.
    apply NoDup_app in Hnd. destruct Hnd as (_ & _ & Hnd).
    apply NoDup_cons in Hnd. destruct Hnd as [Hnot _].
    intros ->. apply Hnot. set_solver.
  - intros (n1 & n2 & a & b & Hne & H1 & H2 & Hf).
    apply (any_pair_of_two _ _ (n1, a) (n2, b)).
    + intros x y. apply overlap_test_sym.
    + apply list_elem_of_In. by apply elem_of_map_to_list.
    + apply list_elem_of_In. by apply elem_of_map_to_list.
    + congruence.
    + exact Hf.
Qed.

(** X3.  A placement that passes the parallel-placement rule has both
    MIKROBUS connectors of equal width and each of them on a board edge:
    for these two the edge rule follows from the parallel rule. *)
Theorem is_parallel_on_edges (placement : gmap string Rect) (mb1 mb2 : Rect) :
  placement !! "MIKROBUS_CONNECTOR_1"%string = Some mb1 ->
  placement !! "MIKROBUS_CONNECTOR_2"%string = Some mb2 ->
  is_parallel placement = true ->
  comp_w mb1 = comp_w mb2 /\ on_edge mb1 = true /\ on_edge mb2 = true.
Proof.
  intros H1 H2. unfold is_parallel, on_edge.
  rewrite (lookup_total_correct _ _ _ H1), (lookup_total_correct _ _ _ H2).
  cbn [BOARD_DIMS fst snd].
  destruct (comp_w mb1 =? comp_w mb2) eqn:Hw; [| discriminate].
  apply Z.eqb_eq in Hw. intros H. split; [exact Hw |].
  rewrite !orb_true_iff, !andb_true_iff in H. rewrite !orb_true_iff.
  tauto.
Qed.

Lemma is_parallel_on_edges_witness :
  comp_w (mkRect 0 30 15 5) = comp_w (mkRect 35 30 15 5) /\
  on_edge (mkRect 0 30 15 5) = true /\ on_edge (mkRect 35 30 15 5) = true.
Proof.
  apply (is_parallel_on_edges sample_placement); vm_compute; reflexivity.
Defined.

Lemma has_required_keys_lookup (placement : gmap string Rect) (key : string) :
  has_required_keys placement = true -> In key required_keys ->
  is_Some (placement !! key).
Proof.
  unfold has_required_keys. rewrite forallb_forall. intros H Hin.
  specialize (H key Hin). by apply bool_decide_eq_true in H.
Qed.

(** What an accepted placement has passed. *)
Lemma validate_placement_true (placement : gmap string Rect) :
  fst (validate_placement placement) = true ->
  has_required_keys placement = true /\
  all_in_bounds placement = true /\ overlap_found placement = false /\
  all_on_edge placement = true /\ is_parallel placement = true /\
  proximity_ok placement = true /\ balance_ok placement = true /\
  keepout_ok placement = true.
Proof.
  intros H. destruct (has_required_keys placement) eqn:Hk.
  - unfold validate_placement in H. rewrite Hk in H. simpl in H.
    rewrite !andb_true_iff, negb_true_iff in H. tauto.
  - unfold validate_placement in H. rewrite Hk in H. discriminate H.
Qed.

(** ** The keep-out rule *)

(** X4.  In a placement that [validate_placement] accepts the USB connector
    touches a board edge, and the keep-out zone is the one anchored on the
    first edge it touches in the order top, bottom, left, right. *)
Theorem accepted_keepout_zone_on_touched_edge (placement : gmap string Rect)
  (usb : Rect) :
  placement !! "USB_CONNECTOR"%string = Some usb ->
  fst (validate_placement placement) = true ->
  exists e : Edge,
    head (edges_touched usb) = Some e /\ touches e usb = true /\
    zone_anchored e usb (keepout_zone usb).
Proof.
  intros Husb Hv. apply validate_placement_true in Hv.
  destruct Hv as (_ & _ & _ & Hedge & _).
  unfold all_on_edge in Hedge. cbn [forallb] in Hedge.
  rewrite (lookup_total_correct _ _ _ Husb) in Hedge.
  apply andb_true_iff in Hedge. destruct Hedge as [Hedge _].
  unfold on_edge in Hedge. cbn [BOARD_DIMS fst snd] in Hedge.
  pose proof (keepout_zone_branch usb) as Hz.
  unfold edges_touched. cbn [filter list_filter touches].
  destruct (comp_y usb =? 0) eqn:Ht;
    [| destruct (comp_y usb + comp_h usb =? 50) eqn:Hb;
       [| destruct (comp_x usb =? 0) eqn:Hl;
          [| destruct (comp_x usb + comp_w usb =? 50) eqn:Hr;
             [| discriminate Hedge]]]];
    repeat case_decide; try congruence; cbn [head];
    (eexists; split; [reflexivity | split; [assumption | exact Hz]]).
Qed.

Lemma accepted_keepout_zone_on_touched_edge_witness :
  exists e : Edge,
    head (edges_touched (mkRect 20 0 5 5)) = Some e /\
    touches e (mkRect 20 0 5 5) = true /\
    zone_anchored e (mkRect 20 0 5 5) (keepout_zone (mkRect 20 0 5 5)).
Proof.
  apply (accepted_keepout_zone_on_touched_edge sample_placement);
    vm_compute; reflexivity.
Defined.

(** X5.  The rectangle that [plot_placement] draws as the keep-out zone is
    the zone that [validate_placement] tests, for every position of the USB
    connector. *)
Theorem zone_props_keepout_zone (usb : Rect) :
  zone_props usb =
  ((zone_x (keepout_zone usb), zone_y (keepout_zone usb)),
   zone_w (keepout_zone usb), zone_h (keepout_zone usb)).
Proof.
  unfold zone_props, keepout_zone. cbn [BOARD_DIMS fst snd].
  destruct (_get_center usb) as [usb_cx usb_cy].
  destruct (comp_y usb =? 0); [reflexivity |].
  destruct (comp_y usb + comp_h usb =? 50); [reflexivity |].
  destruct (comp_x usb =? 0); reflexivity.
Qed.

Lemma Qlt_bool_iff (a b : Q) : Qlt_bool a b = true <-> (a < b)%Q.
Proof.
  unfold Qlt_bool. rewrite negb_true_iff.
  destruct (Qle_bool b a) eqn:E.
  - apply Qle_bool_iff in E. split; [discriminate | intros H; lra].
  - split; [intros _ | reflexivity].
    destruct (Qlt_le_dec a b) as [H | H]; [exact H |].
    apply Qle_bool_iff in H. congruence.
Qed.

Lemma Qlt_bool_false (a b : Q) : Qlt_bool a b = false <-> (b <= a)%Q.
Proof.
  unfold Qlt_bool. rewrite negb_false_iff. apply Qle_bool_iff.
Qed.

Lemma div_unit (n d : Q) :
  (0 <= n -> n <= d -> 0 < d -> 0 <= n / d /\ n / d <= 1)%Q.
Proof.
  intros Hn Hnd Hd. split.
  - apply Qle_shift_div_l; [exact Hd | lra].
  - apply Qle_shift_div_r; [exact Hd | lra].
Qed.

(** Two segments whose ends lie on different sides of each other's line,
    in the sense of the strict test of [ccw], share a point. *)
Lemma segments_meet (ax ay bx b_y cx cy dx dy : Q) :
  let a := ((cy - ay) * (dx - ax) - (dy - ay) * (cx - ax))%Q in
  let b := ((cy - b_y) * (dx - bx) - (dy - b_y) * (cx - bx))%Q in
  let c := ((b_y - ay) * (cx - ax) - (cy - ay) * (bx - ax))%Q in
  let d := ((b_y - ay) * (dx - ax) - (dy - ay) * (bx - ax))%Q in
  (a < 0 /\ 0 <= b \/ 0 <= a /\ b < 0)%Q ->
  (c < 0 /\ 0 <= d \/ 0 <= c /\ d < 0)%Q ->
  exists t u : Q,
    (0 <= t /\ t <= 1 /\ 0 <= u /\ u <= 1 /\
     ax + t * (bx - ax) == cx + u * (dx - cx) /\
     ay + t * (b_y - ay) == cy + u * (dy - cy))%Q.
Proof.
  intros a b c d Hab Hcd.
  assert (Hrel : (c - d == - (a - b))%Q) by (unfold a, b, c, d; ring).
  assert (Hne : ~ (a - b == 0)%Q) by (destruct Hab; lra).
  exists (a / (a - b))%Q, (c / (c - d))%Q.
  assert (Ht : (0 <= a / (a - b) /\ a / (a - b) <= 1)%Q).
  { destruct Hab as [[Ha Hb] | [Ha Hb]].
    - setoid_replace (a / (a - b))%Q with ((- a) / (b - a))%Q using relation Qeq by (field; lra).
      apply div_unit; lra.
    - apply div_unit; lra. }
  assert (Hu : (0 <= c / (c - d) /\ c / (c - d) <= 1)%Q).
  { destruct Hcd as [[Hc Hd] | [Hc Hd]].
    - setoid_replace (c / (c - d))%Q with ((- c) / (d - c))%Q using relation Qeq by (field; lra).
      apply div_unit; lra.
    - apply div_unit; lra. }
  destruct Ht as [Ht0 Ht1], Hu as [Hu0 Hu1].
  split; [exact Ht0 |]. split; [exact Ht1 |].
  split; [exact Hu0 |]. split; [exact Hu1 |].
  rewrite Hrel. split.
  - apply (Qmult_inj_r _ _ (a - b)%Q Hne).
    setoid_replace ((ax + a / (a - b) * (bx - ax)) * (a - b))%Q
      with (ax * (a - b) + a * (bx - ax))%Q using relation Qeq by (field; exact Hne).
    setoid_replace ((cx + c / - (a - b) * (dx - cx)) * (a - b))%Q
      with (cx * (a - b) - c * (dx - cx))%Q using relation Qeq by (field; exact Hne).
    unfold a, b, c. ring.
  - apply (Qmult_inj_r _ _ (a - b)%Q Hne).
    setoid_replace ((ay + a / (a - b) * (b_y - ay)) * (a - b))%Q
      with (ay * (a - b) + a * (b_y - ay))%Q using relation Qeq by (field; exact Hne).
    setoid_replace ((cy + c / - (a - b) * (dy - cy)) * (a - b))%Q
      with (cy * (a - b) - c * (dy - cy))%Q using relation Qeq by (field; exact Hne).
    unfold a, b, c. ring.
Qed.

Lemma xorb_Qlt_bool (a b : Q) :
  xorb (Qlt_bool a 0) (Qlt_bool b 0) = true ->
  (a < 0 /\ 0 <= b \/ 0 <= a /\ b < 0)%Q.
Proof.
  destruct (Qlt_bool a 0) eqn:Ha, (Qlt_bool b 0) eqn:Hb; simpl; try discriminate;
    intros _.
  - left. split; [by apply Qlt_bool_iff | by apply Qlt_bool_false].
  - right. split; [by apply Qlt_bool_false | by apply Qlt_bool_iff].
Qed.

Lemma ccw_sign (A B C : Point) :
  ccw A B C =
  Qlt_bool ((snd B - snd A) * (fst C - fst A) - (snd C - snd A) * (fst B - fst A)) 0.
Proof.
  unfold ccw. apply eq_true_iff_eq. rewrite !Qlt_bool_iff. split; intros H; lra.
Qed.

(** The orientation test never reports an intersection of two segments
    that do not meet. *)
Lemma intersect_sound (A B C D : Point) :
  intersect A B C D = true ->
  exists P : Point, on_segment A B P /\ on_segment C D P.
Proof.
  unfold intersect. rewrite andb_true_iff, !ccw_sign. intros [H1 H2].
  apply xorb_Qlt_bool in H1, H2.
  destruct A as [ax ay], B as [bx b_y], C as [cx cy], D as [dx dy].
  cbn [fst snd] in *.
  destruct (segments_meet ax ay bx b_y cx cy dx dy H1 H2)
    as (t & u & Ht0 & Ht1 & Hu0 & Hu1 & Hx & Hy).
  exists ((ax + t * (bx - ax))%Q, (ay + t * (b_y - ay))%Q). split.
  - exists t. cbn [fst snd].
    split; [exact Ht0 |]. split; [exact Ht1 |]. split; reflexivity.
  - exists u. cbn [fst snd].
    split; [exact Hu0 |]. split; [exact Hu1 |]. split; [exact Hx | exact Hy].
Qed.

(** X6.  When the keep-out rule fails, the segment from the crystal's
    center to the microcontroller's center really meets the boundary of
    the zone: one of its points lies on one of the four edges. *)
Theorem keepout_failure_meets_zone (placement : gmap string Rect) :
  keepout_ok placement = false ->
  exists P : Point,
    on_segment (_get_center (placement !!! "CRYSTAL"%string))
               (_get_center (placement !!! "MICROCONTROLLER"%string)) P /\
    on_zone_boundary (keepout_zone (placement !!! "USB_CONNECTOR"%string)) P.
Proof.
  unfold keepout_ok, zone_intersects, on_zone_boundary. cbv zeta.
  rewrite negb_false_iff, !orb_true_iff.
  intros [[[H | H] | H] | H]; apply intersect_sound in H;
    destruct H as (P & H1 & H2); exists P; tauto.
Qed.

Lemma keepout_failure_meets_zone_witness :
  exists P : Point,
    on_segment (_get_center (blocked_placement !!! "CRYSTAL"%string))
               (_get_center (blocked_placement !!! "MICROCONTROLLER"%string)) P /\
    on_zone_boundary (keepout_zone (blocked_placement !!! "USB_CONNECTOR"%string)) P.
Proof.
  apply (keepout_failure_meets_zone blocked_placement). vm_compute. reflexivity.
Defined.

(** * Properties of [score_placement] *)

Lemma foldl_min_spec (l : list Z) :
  forall acc,
    foldl Z.min acc l <= acc /\
    (forall x, In x l -> foldl Z.min acc l <= x) /\
    In (foldl Z.min acc l) (acc :: l).
Proof.
  induction l as [| a l IH]; intros acc; simpl.
  - split; [lia |]. split; [tauto | by left].
  - destruct (IH (Z.min acc a)) as (H1 & H2 & H3). split; [lia |]. split.
    + intros x [<- | Hx]; [lia | auto].
    + simpl in H3. destruct H3 as [H3 | H3]; [| tauto].
      rewrite <- H3. destruct (Z.min_spec acc a) as [[_ ->] | [_ ->]]; tauto.
Qed.

Lemma foldl_max_spec (l : list Z) :
  forall acc,
    acc <= foldl Z.max acc l /\
    (forall x, In x l -> x <= foldl Z.max acc l) /\
    In (foldl Z.max acc l) (acc :: l).
Proof.
  induction l as [| a l IH]; intros acc; simpl.
  - split; [lia |]. split; [tauto | by left].
  - destruct (IH (Z.max acc a)) as (H1 & H2 & H3). split; [lia |]. split.
    + intros x [<- | Hx]; [lia | auto].
    + simpl in H3. destruct H3 as [H3 | H3]; [| tauto].
      rewrite <- H3. destruct (Z.max_spec acc a) as [[_ ->] | [_ ->]]; tauto.
Qed.

Lemma py_min_spec (l : list Z) (m : Z) :
  py_min l = Some m -> (forall x, In x l -> m <= x) /\ In m l.
Proof.
  destruct l as [| a l]; [discriminate |]. intros [= <-].
  destruct (foldl_min_spec l a) as (H1 & H2 & H3). split; [| exact H3].
  intros x [<- | Hx]; auto.
Qed.

Lemma py_max_spec (l : list Z) (m : Z) :
  py_max l = Some m -> (forall x, In x l -> x <= m) /\ In m l.
Proof.
  destruct l as [| a l]; [discriminate |]. intros [= <-].
  destruct (foldl_max_spec l a) as (H1 & H2 & H3). split; [| exact H3].
  intros x [<- | Hx]; auto.
Qed.

Lemma bounding_box_None (placement : gmap string Rect) :
  bounding_box placement = None <-> placement = ∅.
Proof.
  unfold bounding_box. split.
  - intros H. apply map_to_list_empty_iff.
    destruct (map_to_list placement) as [| [n c] l]; [reflexivity |].
    simpl in H. discriminate H.
  - intros ->. by rewrite map_to_list_empty.
Qed.

Lemma value_of_placement (placement : gmap string Rect) (f : Rect -> Z) (v : Z) :
  In v (map f (map_to_list placement).*2) ->
  exists name comp, placement !! name = Some comp /\ v = f comp.
Proof.
  intros H. apply in_map_iff in H. destruct H as (comp & <- & H).
  apply list_elem_of_In, list_elem_of_fmap in H.
  destruct H as ([name comp'] & -> & H). apply elem_of_map_to_list in H.
  by exists name, comp'.
Qed.

Lemma placement_value_in (placement : gmap string Rect) (f : Rect -> Z)
  (name : string) (comp : Rect) :
  placement !! name = Some comp -> In (f comp) (map f (map_to_list placement).*2).
Proof.
  intros H. apply in_map. apply list_elem_of_In, list_elem_of_fmap.
  exists (name, comp). split; [reflexivity | by apply elem_of_map_to_list].
Qed.

Lemma forallb_components (f : Rect -> bool) (placement : gmap string Rect) :
  forallb f (map_to_list placement).*2 = true ->
  forall name comp, placement !! name = Some comp -> f comp = true.
Proof.
  rewrite forallb_forall. intros H name comp Hl. apply H.
  apply list_elem_of_In, list_elem_of_fmap.
  exists (name, comp). split; [reflexivity | by apply elem_of_map_to_list].
Qed.

(** X7.  How a call of [score_placement] ends: on the empty placement
    [min()] raises; on a placement without MICROCONTROLLER the lookup
    raises; on every other placement a score is returned. *)
Theorem score_placement_outcome (placement : gmap string Rect) :
  match score_placement placement with
  | ScoreValueError => placement = ∅
  | ScoreKeyError =>
      placement <> ∅ /\ placement !! "MICROCONTROLLER"%string = None
  | Scored _ _ => is_Some (placement !! "MICROCONTROLLER"%string)
  end.
Proof.
  unfold score_placement.
  destruct (bounding_box placement) as [[[[min_x max_x] min_y] max_y] |] eqn:Hb.
  - destruct (placement !! "MICROCONTROLLER"%string) eqn:Hm; [eauto |].
    split; [| reflexivity]. intros He. apply bounding_box_None in He. congruence.
  - by apply bounding_box_None.
Qed.

(** The four extrema of [bounding_box] are the extrema of the lists they
    are taken from. *)
Lemma bounding_box_extrema (placement : gmap string Rect)
  (min_x max_x min_y max_y : Z) :
  bounding_box placement = Some (min_x, max_x, min_y, max_y) ->
  let comps := (map_to_list placement).*2 in
  py_min (map comp_x comps) = Some min_x /\
  py_max (map (fun c => comp_x c + comp_w c) comps) = Some max_x /\
  py_min (map comp_y comps) = Some min_y /\
  py_max (map (fun c => comp_y c + comp_h c) comps) = Some max_y.
Proof.
  unfold bounding_box. intros H. cbv zeta.
  destruct (py_min (map comp_x _)) as [a |] eqn:H1; [| discriminate H].
  destruct (py_max (map (fun c => comp_x c + comp_w c) _)) as [b |] eqn:H2;
    [| discriminate H].
  destruct (py_min (map comp_y _)) as [c |] eqn:H3; [| discriminate H].
  destruct (py_max (map (fun c => comp_y c + comp_h c) _)) as [d |] eqn:H4;
    [| discriminate H].
  simpl in H. by injection H as <- <- <- <-.
Qed.

Lemma bounding_box_contains (placement : gmap string Rect)
  (min_x max_x min_y max_y : Z) :
  bounding_box placement = Some (min_x, max_x, min_y, max_y) ->
  forall name comp, placement !! name = Some comp ->
    min_x <= comp_x comp /\ comp_x comp + comp_w comp <= max_x /\
    min_y <= comp_y comp /\ comp_y comp + comp_h comp <= max_y.
Proof.
  intros H. apply bounding_box_extrema in H. simpl in H.
  destruct H as (H1 & H2 & H3 & H4).
  apply py_min_spec in H1, H3. apply py_max_spec in H2, H4.
  destruct H1 as [L1 _], H2 as [L2 _], H3 as [L3 _], H4 as [L4 _].
  intros name comp Hl.
  pose proof (L1 _ (placement_value_in placement comp_x name comp Hl)).
  pose proof (L2 _ (placement_value_in placement
                      (fun c => comp_x c + comp_w c) name comp Hl)).
  pose proof (L3 _ (placement_value_in placement comp_y name comp Hl)).
  pose proof (L4 _ (placement_value_in placement
                      (fun c => comp_y c + comp_h c) name comp Hl)).
  simpl in *. lia.
Qed.

Lemma bounding_box_reached (placement : gmap string Rect)
  (min_x max_x min_y max_y : Z) :
  bounding_box placement = Some (min_x, max_x, min_y, max_y) ->
  (exists name comp, placement !! name = Some comp /\ comp_x comp = min_x) /\
  (exists name comp, placement !! name = Some comp /\ comp_x comp + comp_w comp = max_x) /\
  (exists name comp, placement !! name = Some comp /\ comp_y comp = min_y) /\
  (exists name comp, placement !! name = Some comp /\ comp_y comp + comp_h comp = max_y).
Proof.
  intros H. apply bounding_box_extrema in H. simpl in H.
  destruct H as (H1 & H2 & H3 & H4).
  apply py_min_spec in H1, H3. apply py_max_spec in H2, H4.
  destruct H1 as [_ I1], H2 as [_ I2], H3 as [_ I3], H4 as [_ I4].
  apply value_of_placement in I1, I2, I3, I4.
  destruct I1 as (n1 & c1 & ? & ?), I2 as (n2 & c2 & ? & ?),
    I3 as (n3 & c3 & ? & ?), I4 as (n4 & c4 & ? & ?).
  repeat split; eauto.
Qed.

(** X8.  The bounding box of [score_placement] contains every rectangle of
    the placement, and each of its four sides is reached by some
    rectangle. *)
Theorem bounding_box_tight (placement : gmap string Rect)
  (min_x max_x min_y max_y : Z) :
  bounding_box placement = Some (min_x, max_x, min_y, max_y) ->
  (forall name comp, placement !! name = Some comp ->
     min_x <= comp_x comp /\ comp_x comp + comp_w comp <= max_x /\
     min_y <= comp_y comp /\ comp_y comp + comp_h comp <= max_y) /\
  (exists name comp, placement !! name = Some comp /\ comp_x comp = min_x) /\
  (exists name comp, placement !! name = Some comp /\ comp_x comp + comp_w comp = max_x) /\
  (exists name comp, placement !! name = Some comp /\ comp_y comp = min_y) /\
  (exists name comp, placement !! name = Some comp /\ comp_y comp + comp_h comp = max_y).
Proof.
  intros H. split.
  - exact (bounding_box_contains _ _ _ _ _ H).
  - exact (bounding_box_reached _ _ _ _ _ H).
Qed.

Lemma bounding_box_tight_witness :
  (forall name comp, sample_placement !! name = Some comp ->
     0 <= comp_x comp /\ comp_x comp + comp_w comp <= 50 /\
     0 <= comp_y comp /\ comp_y comp + comp_h comp <= 35) /\
  (exists name comp, sample_placement !! name = Some comp /\ comp_x comp = 0) /\
  (exists name comp,
      sample_placement !! name = Some comp /\ comp_x comp + comp_w comp = 50) /\
  (exists name comp, sample_placement !! name = Some comp /\ comp_y comp = 0) /\
  (exists name comp,
      sample_placement !! name = Some comp /\ comp_y comp + comp_h comp = 35).
Proof.
  apply (bounding_box_tight sample_placement 0 50 0 35). vm_compute. reflexivity.
Defined.

Lemma score_placement_Scored (placement : gmap string Rect) (area : Z) (c : Q) :
  score_placement placement = Scored area c ->
  exists min_x max_x min_y max_y,
    bounding_box placement = Some (min_x, max_x, min_y, max_y) /\
    area = (max_x - min_x) * (max_y - min_y).
Proof.
  unfold score_placement.
  destruct (bounding_box placement) as [[[[min_x max_x] min_y] max_y] |];
    [| discriminate].
  destruct (placement !! "MICROCONTROLLER"%string); [| discriminate].
  intros [= <- _]. by exists min_x, max_x, min_y, max_y.
Qed.

Lemma bounding_box_area_bounds (placement : gmap string Rect)
  (min_x max_x min_y max_y : Z) :
  all_in_bounds placement = true ->
  (forall name comp, placement !! name = Some comp ->
     0 <= comp_w comp /\ 0 <= comp_h comp) ->
  bounding_box placement = Some (min_x, max_x, min_y, max_y) ->
  (max_x - min_x) * (max_y - min_y) <= 2500 /\
  forall name comp, placement !! name = Some comp ->
    comp_w comp * comp_h comp <= (max_x - min_x) * (max_y - min_y).
Proof.
  intros Hin Hpos Hb.
  pose proof (bounding_box_contains _ _ _ _ _ Hb) as Hbox.
  destruct (bounding_box_reached _ _ _ _ _ Hb)
    as ((n1 & c1 & L1 & E1) & (n2 & c2 & L2 & E2) &
        (n3 & c3 & L3 & E3) & (n4 & c4 & L4 & E4)).
  pose proof (all_in_bounds_components _ Hin) as Hin'.
  pose proof (Hin' _ _ L1). pose proof (Hin' _ _ L2).
  pose proof (Hin' _ _ L3). pose proof (Hin' _ _ L4).
  pose proof (Hbox _ _ L1). pose proof (Hbox _ _ L3).
  pose proof (Hpos _ _ L1). pose proof (Hpos _ _ L3).
  split.
  - assert (0 <= max_x - min_x <= 50) by lia.
    assert (0 <= max_y - min_y <= 50) by lia. nia.
  - intros name comp Hl.
    pose proof (Hbox _ _ Hl). pose proof (Hpos _ _ Hl).
    assert (comp_w comp <= max_x - min_x) by lia.
    assert (comp_h comp <= max_y - min_y) by lia. nia.
Qed.

(** X9.  For a placement within the board whose rectangles have
    non-negative width and height, the compactness score (the bounding-box
    area) is at least the area of each rectangle and at most the area of
    the board. *)
Theorem score_area_bounds (placement : gmap string Rect) (area : Z) (c : Q) :
  all_in_bounds placement = true ->
  (forall name comp, placement !! name = Some comp ->
     0 <= comp_w comp /\ 0 <= comp_h comp) ->
  score_placement placement = Scored area c ->
  area <= 2500 /\
  forall name comp, placement !! name = Some comp ->
    comp_w comp * comp_h comp <= area.
Proof.
  intros Hin Hpos Hs. apply score_placement_Scored in Hs.
  destruct Hs as (min_x & max_x & min_y & max_y & Hb & ->).
  exact (bounding_box_area_bounds _ _ _ _ _ Hin Hpos Hb).
Qed.

Lemma score_area_bounds_witness :
  1750 <= 2500 /\
  forall name comp, sample_placement !! name = Some comp ->
    comp_w comp * comp_h comp <= 1750.
Proof.
  apply (score_area_bounds sample_placement 1750
           (_distance_sq (_get_center (mkRect 23 26 5 5))
              (inject_Z 50 / 2, inject_Z 50 / 2)%Q)).
  - vm_compute. reflexivity.
  - intros name comp H.
    pose proof (forallb_components (fun c => (0 <=? comp_w c) && (0 <=? comp_h c))
                  sample_placement ltac:(vm_compute; reflexivity) name comp H) as Hc.
    apply andb_true_iff in Hc. rewrite !Z.leb_le in Hc. exact Hc.
  - vm_compute. reflexivity.
Defined.

Lemma parallel_box_spans (placement : gmap string Rect)
  (min_x max_x min_y max_y : Z) :
  has_required_keys placement = true ->
  all_in_bounds placement = true ->
  is_parallel placement = true ->
  bounding_box placement = Some (min_x, max_x, min_y, max_y) ->
  min_x = 0 /\ max_x = 50 \/ min_y = 0 /\ max_y = 50.
Proof.
  intros Hk Hin Hpar Hb.
  pose proof (bounding_box_contains _ _ _ _ _ Hb) as Hbox.
  destruct (bounding_box_reached _ _ _ _ _ Hb)
    as ((n1 & c1 & L1 & E1) & (n2 & c2 & L2 & E2) &
        (n3 & c3 & L3 & E3) & (n4 & c4 & L4 & E4)).
  pose proof (all_in_bounds_components _ Hin) as Hin'.
  pose proof (Hin' _ _ L1). pose proof (Hin' _ _ L2).
  pose proof (Hin' _ _ L3). pose proof (Hin' _ _ L4).
  assert (Hm1 : is_Some (placement !! "MIKROBUS_CONNECTOR_1"%string))
    by (apply (has_required_keys_lookup _ _ Hk); simpl; tauto).
  assert (Hm2 : is_Some (placement !! "MIKROBUS_CONNECTOR_2"%string))
    by (apply (has_required_keys_lookup _ _ Hk); simpl; tauto).
  destruct Hm1 as [mb1 Hm1], Hm2 as [mb2 Hm2].
  pose proof (Hbox _ _ Hm1). pose proof (Hbox _ _ Hm2).
  unfold is_parallel in Hpar.
  rewrite (lookup_total_correct _ _ _ Hm1), (lookup_total_correct _ _ _ Hm2) in Hpar.
  destruct (comp_w mb1 =? comp_w mb2); [| discriminate Hpar].
  rewrite !orb_true_iff, !andb_true_iff, !Z.eqb_eq in Hpar.
  destruct Hpar as [[[[Ha Hb'] | [Ha Hb']] | [Ha Hb']] | [Ha Hb']];
    [left | left | right | right]; lia.
Qed.

(** X10.  The bounding box of a placement that [validate_placement]
    accepts spans the whole board in one direction, so its compactness
    score is 50 times the extent of the box in the other direction. *)
Theorem accepted_bounding_box_spans_board (placement : gmap string Rect)
  (area : Z) (c : Q) :
  fst (validate_placement placement) = true ->
  score_placement placement = Scored area c ->
  exists min_x max_x min_y max_y,
    bounding_box placement = Some (min_x, max_x, min_y, max_y) /\
    (min_x = 0 /\ max_x = 50 /\ area = 50 * (max_y - min_y) \/
     min_y = 0 /\ max_y = 50 /\ area = (max_x - min_x) * 50).
Proof.
  intros Hv Hs. apply validate_placement_true in Hv.
  destruct Hv as (Hk & Hin & _ & _ & Hpar & _).
  apply score_placement_Scored in Hs.
  destruct Hs as (min_x & max_x & min_y & max_y & Hb & ->).
  exists min_x, max_x, min_y, max_y. split; [exact Hb |].
  destruct (parallel_box_spans _ _ _ _ _ Hk Hin Hpar Hb) as [[-> ->] | [-> ->]];
    [left | right]; (split; [reflexivity |]); (split; [reflexivity |]); lia.
Qed.

Lemma accepted_bounding_box_spans_board_witness :
  exists min_x max_x min_y max_y,
    bounding_box sample_placement = Some (min_x, max_x, min_y, max_y) /\
    (min_x = 0 /\ max_x = 50 /\ 1750 = 50 * (max_y - min_y) \/
     min_y = 0 /\ max_y = 50 /\ 1750 = (max_x - min_x) * 50).
Proof.
  apply (accepted_bounding_box_spans_board sample_placement 1750
           (_distance_sq (_get_center (mkRect 23 26 5 5))
              (inject_Z 50 / 2, inject_Z 50 / 2)%Q));
    vm_compute; reflexivity.
Defined.

(** * Further properties of the search *)

(** ** [_convert_to_util_format] *)

Lemma convert_item_pos (acc : option (gmap string Rect)) (name : string) (pos : Pos) :
  convert_item acc (name, pos) =
  (u ← acc; r ← convert_pos name pos; Some (<[name := r]> u)).
Proof.
  destruct pos as [[x y] rot]. unfold convert_item, convert_pos.
  destruct acc as [u |]; [| reflexivity]. simpl.
  destruct (rotated_size name rot) as [[w h] |]; reflexivity.
Qed.

Lemma convert_items_None (items : list (string * Pos)) :
  foldl convert_item None items = None.
Proof.
  induction items as [| [name pos] items IH]; [reflexivity |].
  cbn [foldl]. rewrite convert_item_pos. exact IH.
Qed.

Lemma convert_items_lookup (items : list (string * Pos)) :
  NoDup items.*1 ->
  forall acc u,
    foldl convert_item (Some acc) items = Some u ->
    forall name,
      u !! name =
      match (list_to_map items : gmap string Pos) !! name with
      | Some pos => convert_pos name pos
      | None => acc !! name
      end.
Proof.
  induction items as [| [n p] items IH]; intros Hnd acc u Hf name.
  - simpl in Hf. injection Hf as <-. by rewrite list_to_map_nil, lookup_empty.
  - rewrite fmap_cons in Hnd. apply NoDup_cons in Hnd. destruct Hnd as [Hn Hnd].
    cbn [foldl] in Hf. rewrite convert_item_pos in Hf. simpl in Hf.
    destruct (convert_pos n p) as [r |] eqn:Hr;
      [| simpl in Hf; by rewrite convert_items_None in Hf].
    simpl in Hf. rewrite (IH Hnd _ _ Hf name). rewrite list_to_map_cons.
    destruct (decide (n = name)) as [<- | Hne].
    + rewrite (proj1 (not_elem_of_list_to_map _ _) Hn).
      by rewrite !lookup_insert_eq.
    + by rewrite !lookup_insert_ne by done.
Qed.

Lemma convert_items_Some (items : list (string * Pos)) :
  forall acc u,
    foldl convert_item (Some acc) items = Some u ->
    Forall (fun item => is_Some (convert_pos (fst item) (snd item))) items.
Proof.
  induction items as [| [n p] items IH]; intros acc u Hf; [constructor |].
  cbn [foldl] in Hf. rewrite convert_item_pos in Hf. simpl in Hf.
  destruct (convert_pos n p) as [r |] eqn:Hr;
    [| simpl in Hf; by rewrite convert_items_None in Hf].
  constructor; [simpl; rewrite Hr; eauto | exact (IH _ _ Hf)].
Qed.

Lemma convert_each (positions : gmap string Pos) (u : gmap string Rect)
  (name : string) (pos : Pos) :
  _convert_to_util_format positions = Some u ->
  positions !! name = Some pos -> is_Some (convert_pos name pos).
Proof.
  intros H Hl. apply convert_items_Some in H. rewrite Forall_forall in H.
  apply (H (name, pos)). by apply elem_of_map_to_list.
Qed.

Lemma convert_lookup (positions : gmap string Pos) (u : gmap string Rect) :
  _convert_to_util_format positions = Some u ->
  forall name, u !! name = positions !! name ≫= convert_pos name.
Proof.
  intros H name. unfold _convert_to_util_format in H.
  rewrite (convert_items_lookup _ (NoDup_fst_map_to_list positions) _ _ H name).
  rewrite list_to_map_to_list.
  destruct (positions !! name); [reflexivity | by rewrite lookup_empty].
Qed.

(** X11.  When [_convert_to_util_format] returns, the result has exactly
    the names of its argument, and each rectangle keeps the position of its
    item and takes the footprint of [COMPONENTS_SPECS], width and height
    exchanged when the rotation is 90. *)
Theorem convert_rectangles (positions : gmap string Pos) (u : gmap string Rect) :
  _convert_to_util_format positions = Some u ->
  (forall name, positions !! name = None -> u !! name = None) /\
  (forall name x y rot, positions !! name = Some (x, y, rot) ->
     exists w h,
       COMPONENTS_SPECS !! name = Some (w, h) /\
       u !! name = Some (if rot =? 90 then mkRect x y h w else mkRect x y w h)).
Proof.
  intros H. split.
  - intros name Hn. rewrite (convert_lookup _ _ H). unfold Pos in *. by rewrite Hn.
  - intros name x y rot Hn.
    pose proof (convert_lookup _ _ H name) as Hu.
    unfold Pos in *. rewrite Hn in Hu. simpl in Hu.
    assert (Hk : is_Some (COMPONENTS_SPECS !! name)).
    { destruct (convert_each _ _ name (x, y, rot) H Hn) as [r Hr].
      unfold convert_pos, rotated_size in Hr.
      destruct (COMPONENTS_SPECS !! name); [eauto | discriminate Hr]. }
    destruct Hk as [[w h] Hs]. exists w, h. split; [exact Hs |].
    rewrite Hu. unfold rotated_size. rewrite Hs. simpl.
    by destruct (rot =? 90).
Qed.

Lemma convert_rectangles_witness :
  exists w h,
    COMPONENTS_SPECS !! "MIKROBUS_CONNECTOR_1"%string = Some (w, h) /\
    sample_placement !! "MIKROBUS_CONNECTOR_1"%string =
      Some (if 90 =? 90 then mkRect 0 30 h w else mkRect 0 30 w h).
Proof.
  apply (convert_rectangles sample_positions sample_placement);
    vm_compute; reflexivity.
Defined.

(** X12.  [_convert_to_util_format] raises [KeyError] exactly when some
    name of its argument has no entry in [COMPONENTS_SPECS]. *)
Theorem convert_raises_iff (positions : gmap string Pos) :
  _convert_to_util_format positions = None <->
  exists name pos, positions !! name = Some pos /\ COMPONENTS_SPECS !! name = None.
Proof.
  split.
  - intros H.
    destruct (decide (map_Forall (fun name _ => is_Some (COMPONENTS_SPECS !! name))
                        positions)) as [Hall | Hex].
    + assert (Hk : known_keys positions) by (intros name pos Hl; exact (Hall _ _ Hl)).
      destruct (convert_total _ Hk) as [u Hu]. congruence.
    + apply map_not_Forall in Hex; [| apply _].
      destruct Hex as (name & pos & Hl & Hn). exists name, pos.
      split; [exact Hl |]. by apply eq_None_not_Some.
  - intros (name & [[x y] rot] & Hl & Hn).
    destruct (_convert_to_util_format positions) as [u |] eqn:Hu; [| reflexivity].
    destruct (convert_each _ _ name (x, y, rot) Hu Hl) as [r Hr].
    unfold convert_pos, rotated_size in Hr. rewrite Hn in Hr. discriminate Hr.
Qed.

(** X13.  The center the solver computes for an item is the center the
    validator computes for the rectangle the item is converted to. *)
Theorem solver_center_is_validator_center (positions : gmap string Pos)
  (u : gmap string Rect) (name : string) (pos : Pos) (comp : Rect) :
  _convert_to_util_format positions = Some u ->
  positions !! name = Some pos -> u !! name = Some comp ->
  get_center_from_pos name pos = Some (_get_center comp).
Proof.
  intros H Hp Hu. destruct pos as [[x y] rot].
  pose proof (convert_lookup _ _ H name) as Hl.
  unfold Pos in *. rewrite Hp, Hu in Hl. simpl in Hl.
  destruct (rotated_size name rot) as [[w h] |] eqn:Hs; [| discriminate Hl].
  simpl in Hl. injection Hl as ->.
  by apply get_center_from_pos_convert.
Qed.

Lemma solver_center_is_validator_center_witness :
  get_center_from_pos "MIKROBUS_CONNECTOR_2" (35, 30, 90) =
  Some (_get_center (mkRect 35 30 15 5)).
Proof.
  apply (solver_center_is_validator_center sample_positions sample_placement);
    vm_compute; reflexivity.
Defined.

(** ** The candidates of the search *)

Lemma convert_candidate (config : Config) (r1 r2 r3 : Z) (mc cr : Z * Z) :
  _convert_to_util_format (candidate_positions config r1 r2 r3 mc cr) =
  Some (candidate_placement config r1 r2 r3 mc cr).
Proof.
  assert (Hk : known_keys (candidate_positions config r1 r2 r3 mc cr)).
  { unfold candidate_positions, edge_positions.
    apply known_keys_insert; [rewrite specs_crystal; eauto |].
    apply known_keys_insert; [rewrite specs_micro; eauto |].
    apply known_keys_insert; [rewrite specs_usb; eauto |].
    apply known_keys_insert; [rewrite specs_mb2; eauto |].
    apply known_keys_insert; [rewrite specs_mb1; eauto |].
    apply known_keys_empty. }
  destruct (convert_total _ Hk) as [u Hu]. rewrite Hu. f_equal.
  apply map_eq. intros name. rewrite (convert_lookup _ _ Hu name).
  unfold candidate_positions, edge_positions, candidate_placement.
  unfold mikrobus_pos, mikrobus_rects, usb_pos, usb_rect.
  destruct config as [mb_orientation usb_edge]. cbn [fst snd].
  destruct (decide (name = "CRYSTAL"%string)) as [-> | H1].
  { rewrite !lookup_insert_eq. cbn [mbind option_bind].
    unfold convert_pos, rotated_size. by rewrite specs_crystal. }
  rewrite !(lookup_insert_ne _ "CRYSTAL"%string) by done.
  destruct (decide (name = "MICROCONTROLLER"%string)) as [-> | H2].
  { rewrite !lookup_insert_eq. cbn [mbind option_bind].
    unfold convert_pos, rotated_size. by rewrite specs_micro. }
  rewrite !(lookup_insert_ne _ "MICROCONTROLLER"%string) by done.
  destruct (decide (name = "USB_CONNECTOR"%string)) as [-> | H3].
  { rewrite !lookup_insert_eq. cbn [mbind option_bind].
    destruct (String.eqb usb_edge "top");
      [| destruct (String.eqb usb_edge "bottom");
         [| destruct (String.eqb usb_edge "left")]];
      unfold convert_pos, rotated_size; by rewrite specs_usb. }
  rewrite !(lookup_insert_ne _ "USB_CONNECTOR"%string) by done.
  destruct (decide (name = "MIKROBUS_CONNECTOR_2"%string)) as [-> | H4].
  { rewrite !lookup_insert_eq. cbn [mbind option_bind].
    destruct (String.eqb mb_orientation "v");
      unfold convert_pos, rotated_size; by rewrite specs_mb2. }
  rewrite !(lookup_insert_ne _ "MIKROBUS_CONNECTOR_2"%string) by done.
  destruct (decide (name = "MIKROBUS_CONNECTOR_1"%string)) as [-> | H5].
  { rewrite !lookup_insert_eq. cbn [mbind option_bind].
    destruct (String.eqb mb_orientation "v");
      unfold convert_pos, rotated_size; by rewrite specs_mb1. }
  rewrite !(lookup_insert_ne _ "MIKROBUS_CONNECTOR_1"%string) by done.
  by rewrite !lookup_empty.
Qed.

Lemma place_mikrobus_draws (w : World) (mb_orientation : string) :
  silent (place_mikrobus w mb_orientation ∅)
    (fun positions =>
       exists n1 n2,
         positions =
         <["MIKROBUS_CONNECTOR_2"%string :=
             snd (mikrobus_pos mb_orientation (random_randint w n1 0 45)
                               (random_randint w n2 0 45))]>
         (<["MIKROBUS_CONNECTOR_1"%string :=
             fst (mikrobus_pos mb_orientation (random_randint w n1 0 45)
                               (random_randint w n2 0 45))]> ∅)).
Proof.
  intros s. unfold place_mikrobus, mikrobus_pos.
  rewrite specs_mb1, bind_lift_Some.
  destruct (String.eqb mb_orientation "v"); cbv zeta iota beta;
    rewrite !bind_randint; unfold ret;
    (eexists; eexists; split; [reflexivity | split; [reflexivity |]]);
    exists (draws s), (S (draws s)); reflexivity.
Qed.

Lemma place_usb_draws (w : World) (usb_edge : string) (positions : gmap string Pos) :
  silent (place_usb w usb_edge positions)
    (fun positions' =>
       exists n3,
         positions' =
         <["USB_CONNECTOR"%string := usb_pos usb_edge (random_randint w n3 0 45)]>
           positions).
Proof.
  intros s. unfold place_usb, usb_pos.
  rewrite specs_usb, bind_lift_Some. cbv zeta iota beta.
  destruct (String.eqb usb_edge "top");
    [| destruct (String.eqb usb_edge "bottom");
       [| destruct (String.eqb usb_edge "left")]];
    rewrite bind_randint; unfold ret;
    (eexists; eexists; split; [reflexivity | split; [reflexivity |]]);
    exists (draws s); reflexivity.
Qed.

Lemma off_internal_insert (positions base : gmap string Pos) (mc cr : Pos) :
  off_internal positions base ->
  <["CRYSTAL"%string := cr]> (<["MICROCONTROLLER"%string := mc]> positions) =
  <["CRYSTAL"%string := cr]> (<["MICROCONTROLLER"%string := mc]> base).
Proof.
  intros Hoff. apply map_eq. intros name.
  destruct (decide (name = "CRYSTAL"%string)) as [-> | H1];
    [by rewrite !lookup_insert_eq |].
  rewrite !(lookup_insert_ne _ "CRYSTAL"%string) by done.
  destruct (decide (name = "MICROCONTROLLER"%string)) as [-> | H2];
    [by rewrite !lookup_insert_eq |].
  rewrite !(lookup_insert_ne _ "MICROCONTROLLER"%string) by done.
  by apply Hoff.
Qed.

Lemma off_internal_after (base : gmap string Pos) (mc cr : Pos) :
  off_internal (<["CRYSTAL"%string := cr]> (<["MICROCONTROLLER"%string := mc]> base))
               base.
Proof.
  intros name H1 H2. by rewrite !lookup_insert_ne by done.
Qed.

Lemma all_rejected_nil : all_rejected [].
Proof. intros config p []. Qed.

Lemma all_rejected_cons (e : Event) (ev : list Event) :
  (forall config p, e <> EvValidate config p true) ->
  all_rejected ev -> all_rejected (e :: ev).
Proof. intros He Hev config p [H | H]; [by apply (He config p) | by apply (Hev config p)]. Qed.

Lemma all_rejected_app (ev1 ev2 : list Event) :
  all_rejected ev1 -> all_rejected ev2 -> all_rejected (ev1 ++ ev2).
Proof.
  intros H1 H2 config p Hin. apply in_app_or in Hin.
  destruct Hin; [by apply (H1 config p) | by apply (H2 config p)].
Qed.

Lemma stops_after_rejected (o : Outcome (option (gmap string Pos)))
  (ev1 ev2 : list Event) :
  all_rejected ev1 -> stops_at_first_accepted o ev2 ->
  stops_at_first_accepted o (ev1 ++ ev2).
Proof.
  intros H1 [(positions & pre & config & p & -> & -> & Hpre & Hconv) | [Hno H2]].
  - left. exists positions, (ev1 ++ pre), config, p.
    split; [reflexivity |]. split; [by rewrite app_assoc |].
    split; [by apply all_rejected_app | exact Hconv].
  - right. split; [exact Hno | by apply all_rejected_app].
Qed.

(** The inner loop: every event is the validation of the conversion of
    [base] completed with two internal positions, recorded with the
    validator's verdict, and the loop stops at the first accepted one. *)
Lemma search_around_trace (w : World) (config : Config) (tx ty : Q)
  (mc_w mc_h cr_w cr_h : Z) (base : gmap string Pos) (n : nat) :
  forall (positions : gmap string Pos) (s : Run),
    known_keys positions -> off_internal positions base ->
    let res := search_around w config tx ty mc_w mc_h cr_w cr_h n positions s in
    Forall (fun e => exists mc cr p,
                e = EvValidate config p (fst (validate_placement p)) /\
                _convert_to_util_format
                  (<["CRYSTAL"%string := (fst cr, snd cr, 0)]>
                     (<["MICROCONTROLLER"%string := (fst mc, snd mc, 0)]> base)) =
                Some p) res.2 /\
    stops_at_first_accepted res.1.1 res.2.
Proof.
  induction n as [| n IH]; intros positions s Hk Hoff.
  - simpl. split; [constructor |]. right. split; [discriminate | apply all_rejected_nil].
  - cbv zeta. rewrite search_around_S.
    rewrite bind_uniform; cbv beta. rewrite bind_uniform; cbv beta zeta.
    rewrite bind_uniform; cbv beta. rewrite bind_uniform; cbv beta.
    match goal with
    | |- context [lift (get_center_from_pos ?n ?p)] =>
        destruct (get_center_from_pos_known n p) as [mc_center Hc];
        [rewrite specs_micro; eauto | rewrite Hc]
    end.
    rewrite bind_lift_Some.
    match goal with
    | |- context [lift (_convert_to_util_format
                          (<[_ := (?cx, ?cy, 0)]> (<[_ := (?mx, ?my, 0)]> positions)))] =>
        set (cr_x := cx); set (cr_y := cy); set (mc_x := mx); set (mc_y := my)
    end.
    rewrite (off_internal_insert positions base _ _ Hoff).
    match goal with
    | |- context [lift (_convert_to_util_format ?P)] => set (positions' := P)
    end.
    assert (Hk' : known_keys positions').
    { unfold positions'. rewrite <- (off_internal_insert positions base _ _ Hoff).
      apply known_keys_insert; [rewrite specs_crystal; eauto |].
      apply known_keys_insert; [rewrite specs_micro; eauto | exact Hk]. }
    destruct (convert_total positions' Hk') as [p Hconv]. rewrite Hconv.
    rewrite bind_lift_Some, bind_validate.
    destruct (fst (validate_placement p)) eqn:Hok.
    + unfold ret. cbn [fst snd]. split.
      * constructor; [| constructor].
        exists (mc_x, mc_y), (cr_x, cr_y), p. by rewrite Hok.
      * left. exists positions', [], config, p.
        repeat split; [apply all_rejected_nil | exact Hconv].
    + specialize (IH positions' (mkRun (S (S (S (S (draws s))))) (ticks s)) Hk'
                    (off_internal_after base _ _)).
      cbv zeta in IH.
      destruct (search_around _ _ _ _ _ _ _ _ _ _ _) as [[o s'] ev].
      cbn [fst snd] in *. destruct IH as [Hall Hstop]. split.
      * constructor; [| exact Hall].
        exists (mc_x, mc_y), (cr_x, cr_y), p. by rewrite Hok.
      * apply (stops_after_rejected o [EvValidate config p false] ev); [| exact Hstop].
        apply all_rejected_cons; [discriminate | apply all_rejected_nil].
Qed.

(** One outer attempt: every event is the validation of a candidate. *)
Lemma attempt_trace (w : World) (config : Config) (s : Run) :
  Forall (event_ok w) (attempt w config s).2 /\
  stops_at_first_accepted (attempt w config s).1.1 (attempt w config s).2.
Proof.
  destruct config as [mb_orientation usb_edge]. unfold attempt.
  destruct (place_mikrobus_draws w mb_orientation s)
    as (p1 & s1 & H1 & _ & n1 & n2 & Hp1).
  rewrite (bind_silent _ _ _ _ _ H1).
  destruct (place_usb_draws w usb_edge p1 s1) as (p2 & s2 & H2 & _ & n3 & Hp2).
  rewrite (bind_silent _ _ _ _ _ H2).
  set (r1 := random_randint w n1 0 45) in *.
  set (r2 := random_randint w n2 0 45) in *.
  set (r3 := random_randint w n3 0 45) in *.
  assert (Hbase : p2 = edge_positions (mb_orientation, usb_edge) r1 r2 r3)
    by (rewrite Hp2, Hp1; reflexivity).
  assert (Hk2 : known_keys p2).
  { rewrite Hbase. unfold edge_positions.
    apply known_keys_insert; [rewrite specs_usb; eauto |].
    apply known_keys_insert; [rewrite specs_mb2; eauto |].
    apply known_keys_insert; [rewrite specs_mb1; eauto |].
    apply known_keys_empty. }
  destruct (edge_com_total p2 Hk2) as [[ex ey] He]. rewrite He, bind_lift_Some.
  destruct (target_center_of ex ey) as [tx ty].
  rewrite specs_micro, bind_lift_Some, specs_crystal, bind_lift_Some.
  pose proof (search_around_trace w (mb_orientation, usb_edge) tx ty 5 5 5 5 p2 100
                p2 s2 Hk2 ltac:(intros name _ _; reflexivity)) as H.
  cbv zeta in H.
  destruct (search_around _ _ _ _ _ _ _ _ _ _ _) as [[o s'] ev].
  cbn [fst snd] in *. destruct H as [Hall Hstop]. split; [| exact Hstop].
  eapply Forall_impl; [exact Hall |].
  intros e (mc & cr & p & -> & Hconv). simpl. split; [reflexivity |].
  exists n1, n2, n3, mc, cr. fold r1 r2 r3.
  rewrite Hbase in Hconv.
  change (<["CRYSTAL"%string := (fst cr, snd cr, 0)]>
            (<["MICROCONTROLLER"%string := (fst mc, snd mc, 0)]>
               (edge_positions (mb_orientation, usb_edge) r1 r2 r3)))
    with (candidate_positions (mb_orientation, usb_edge) r1 r2 r3 mc cr) in Hconv.
  rewrite convert_candidate in Hconv. congruence.
Qed.

(** ** Whole runs *)

Lemma while_config_unfold (w : World) (start_time : Q) (config : Config)
  (fuel : nat) (s : Run) :
  while_config w start_time config (S fuel) s =
  let now := time_time w (ticks s) in
  let s1 := mkRun (draws s) (S (ticks s)) in
  if in_budget start_time now then
    match attempt w config s1 with
    | (Done (Some positions), s2, ev) =>
        (Done (Some positions), s2, EvCheck config start_time now :: ev)
    | (Done None, s2, ev) =>
        match while_config w start_time config fuel s2 with
        | (o, s3, ev') => (o, s3, EvCheck config start_time now :: ev ++ ev')
        end
    | (KeyError, s2, ev) => (KeyError, s2, EvCheck config start_time now :: ev)
    | (OutOfFuel, s2, ev) => (OutOfFuel, s2, EvCheck config start_time now :: ev)
    end
  else (Done None, s1, [EvCheck config start_time now]).
Proof.
  cbn [while_config]. rewrite bind_time, bind_emit. cbv zeta.
  destruct (in_budget start_time (time_time w (ticks s))); [| reflexivity].
  unfold bind at 1.
  destruct (attempt w config _) as [[[[positions |] | |] s2] ev]; try reflexivity.
  - unfold ret. by rewrite app_nil_r.
  - by destruct (while_config w start_time config fuel s2) as [[o s3] ev'].
Qed.

Lemma stops_not_returned (o : Outcome (option (gmap string Pos))) (ev : list Event) :
  (forall positions, o <> Done (Some positions)) ->
  stops_at_first_accepted o ev -> all_rejected ev.
Proof.
  intros Hno [(positions & pre & config & p & -> & _) | [_ H]]; [| exact H].
  by destruct (Hno positions).
Qed.

Lemma all_rejected_check (config : Config) (start_time now : Q) :
  all_rejected [EvCheck config start_time now].
Proof. apply all_rejected_cons; [discriminate | apply all_rejected_nil]. Qed.

Lemma while_config_trace (w : World) (start_time : Q) (config : Config) (fuel : nat) :
  forall s,
    Forall (event_ok w) (while_config w start_time config fuel s).2 /\
    stops_at_first_accepted (while_config w start_time config fuel s).1.1
                            (while_config w start_time config fuel s).2.
Proof.
  induction fuel as [| fuel IH]; intros s.
  - simpl. split; [constructor |]. right. split; [discriminate | apply all_rejected_nil].
  - rewrite while_config_unfold. cbv zeta.
    destruct (in_budget start_time (time_time w (ticks s))).
    + pose proof (attempt_trace w config (mkRun (draws s) (S (ticks s)))) as [Hall Hstop].
      pose proof (attempt_outcome_100 w config (mkRun (draws s) (S (ticks s)))) as Hout.
      destruct (attempt w config _) as [[oa s2] eva]. cbn [fst snd] in *.
      destruct Hout as (_ & _ & _ & r & -> & _). destruct r as [positions |].
      * cbn [fst snd]. split; [constructor; [exact I | exact Hall] |].
        apply (stops_after_rejected _ [EvCheck config start_time _] eva);
          [apply all_rejected_check | exact Hstop].
      * specialize (IH s2).
        destruct (while_config w start_time config fuel s2) as [[o s3] ev'].
        cbn [fst snd] in *. destruct IH as [Hall' Hstop']. split.
        -- constructor; [exact I |]. apply Forall_app. by split.
        -- apply (stops_after_rejected _ (EvCheck config start_time _ :: eva) ev');
             [| exact Hstop'].
           apply (all_rejected_app [EvCheck config start_time _] eva);
             [apply all_rejected_check |].
           apply (stops_not_returned (Done None)); [discriminate | exact Hstop].
    + cbn [fst snd]. split; [repeat constructor |].
      right. split; [discriminate | apply all_rejected_check].
Qed.

Lemma for_configs_trace (w : World) (start_time : Q) (fuel : nat)
  (configs : list Config) :
  forall s,
    Forall (event_ok w) (for_configs w start_time fuel configs s).2 /\
    stops_at_first_accepted (for_configs w start_time fuel configs s).1.1
                            (for_configs w start_time fuel configs s).2.
Proof.
  induction configs as [| config rest IH]; intros s.
  - simpl. split; [constructor |]. right. split; [discriminate | apply all_rejected_nil].
  - rewrite for_configs_cons.
    pose proof (while_config_trace w start_time config fuel s) as [Hall Hstop].
    destruct (while_config w start_time config fuel s)
      as [[[[positions |] | |] s1] ev]; cbn [fst snd] in *; try by split.
    specialize (IH s1).
    destruct (for_configs w start_time fuel rest s1) as [[o s2] ev'].
    cbn [fst snd] in *. destruct IH as [Hall' Hstop']. split.
    + apply Forall_app. by split.
    + apply stops_after_rejected; [| exact Hstop'].
      apply (stops_not_returned (Done None)); [discriminate | exact Hstop].
Qed.

Lemma run_search_trace (w : World) (fuel : nat) :
  Forall (event_ok w) (run_search w fuel).2 /\
  stops_at_first_accepted (run_search w fuel).1.1 (run_search w fuel).2.
Proof. rewrite run_search_unfold. apply for_configs_trace. Qed.

Lemma candidate_lookups (config : Config) (r1 r2 r3 : Z) (mc cr : Z * Z) :
  let p := candidate_placement config r1 r2 r3 mc cr in
  p !! "MIKROBUS_CONNECTOR_1"%string = Some (fst (mikrobus_rects (fst config) r1 r2)) /\
  p !! "MIKROBUS_CONNECTOR_2"%string = Some (snd (mikrobus_rects (fst config) r1 r2)) /\
  p !! "USB_CONNECTOR"%string = Some (usb_rect (snd config) r3) /\
  p !! "MICROCONTROLLER"%string = Some (mkRect (fst mc) (snd mc) 5 5) /\
  p !! "CRYSTAL"%string = Some (mkRect (fst cr) (snd cr) 5 5).
Proof.
  unfold candidate_placement. cbv zeta.
  repeat split;
    repeat first [ rewrite lookup_insert_eq; reflexivity
                 | rewrite lookup_insert_ne by done ].
Qed.

Lemma candidate_exactly_required (config : Config) (r1 r2 r3 : Z) (mc cr : Z * Z) :
  exactly_required (candidate_placement config r1 r2 r3 mc cr).
Proof.
  intros key. unfold candidate_placement.
  rewrite !lookup_insert_is_Some', lookup_empty. unfold required_keys. simpl.
  split.
  - intros [<- | [<- | [<- | [<- | [<- | H]]]]]; [tauto .. | by destruct H].
  - intros [<- | [<- | [<- | [<- | [<- | []]]]]]; tauto.
Qed.

Lemma mikrobus_rects_rules (mb_orientation : string) (r1 r2 : Z) :
  let mb1 := fst (mikrobus_rects mb_orientation r1 r2) in
  let mb2 := snd (mikrobus_rects mb_orientation r1 r2) in
  on_edge mb1 = true /\ on_edge mb2 = true /\ overlap_test mb1 mb2 = false /\
  comp_w mb1 = comp_w mb2 /\
  (comp_x mb1 = 0 /\ comp_x mb2 + comp_w mb2 = 50 \/
   comp_y mb1 = 0 /\ comp_y mb2 + comp_h mb2 = 50).
Proof.
  unfold mikrobus_rects, on_edge, overlap_test. cbn [BOARD_DIMS fst snd].
  destruct (String.eqb mb_orientation "v"); cbn [fst snd comp_x comp_y comp_w comp_h].
  - rewrite !orb_true_iff, negb_false_iff, !orb_true_iff, !Z.eqb_eq, !Z.leb_le.
    repeat split; try lia; tauto.
  - rewrite !orb_true_iff, negb_false_iff, !orb_true_iff, !Z.eqb_eq, !Z.leb_le.
    repeat split; try lia; tauto.
Qed.

Lemma usb_rect_on_edge (usb_edge : string) (r : Z) : on_edge (usb_rect usb_edge r) = true.
Proof.
  unfold usb_rect, on_edge. cbn [BOARD_DIMS fst snd].
  destruct (String.eqb usb_edge "top");
    [| destruct (String.eqb usb_edge "bottom");
       [| destruct (String.eqb usb_edge "left")]];
    cbn [comp_x comp_y comp_w comp_h];
    rewrite !orb_true_iff, !Z.eqb_eq; lia.
Qed.

(** X14.  Whatever the draws and the clock, every candidate the search
    hands to the validator holds exactly the five required kinds, passes
    the edge rule and the parallel rule, and has MIKROBUS connectors that
    do not overlap each other; the verdict recorded is the validator's. *)
Theorem candidates_pass_structural_rules (w : World) (fuel : nat)
  (config : Config) (p : gmap string Rect) (ok : bool) :
  In (EvValidate config p ok) (run_search w fuel).2 ->
  ok = fst (validate_placement p) /\
  exactly_required p /\
  all_on_edge p = true /\ is_parallel p = true /\
  overlap_test (p !!! "MIKROBUS_CONNECTOR_1"%string)
               (p !!! "MIKROBUS_CONNECTOR_2"%string) = false.
Proof.
  intros Hin. destruct (run_search_trace w fuel) as [Hall _].
  rewrite Forall_forall in Hall. apply list_elem_of_In in Hin.
  destruct (Hall _ Hin) as [Hok (n1 & n2 & n3 & mc & cr & ->)].
  split; [exact Hok |]. split; [apply candidate_exactly_required |].
  destruct (candidate_lookups config (random_randint w n1 0 45)
              (random_randint w n2 0 45) (random_randint w n3 0 45) mc cr)
    as (L1 & L2 & L3 & _ & _).
  destruct (mikrobus_rects_rules (fst config) (random_randint w n1 0 45)
              (random_randint w n2 0 45)) as (E1 & E2 & Hov & Hw & Hpar).
  unfold all_on_edge, is_parallel. cbn [forallb].
  rewrite (lookup_total_correct _ _ _ L1), (lookup_total_correct _ _ _ L2),
    (lookup_total_correct _ _ _ L3).
  rewrite E1, E2, usb_rect_on_edge, Hov.
  split; [reflexivity |]. split; [| reflexivity].
  apply Z.eqb_eq in Hw. rewrite Hw.
  rewrite !orb_true_iff, !andb_true_iff, !Z.eqb_eq. tauto.
Qed.

Lemma candidates_pass_structural_rules_witness :
  true = fst (validate_placement sample_placement) /\
  exactly_required sample_placement /\
  all_on_edge sample_placement = true /\ is_parallel sample_placement = true /\
  overlap_test (sample_placement !!! "MIKROBUS_CONNECTOR_1"%string)
               (sample_placement !!! "MIKROBUS_CONNECTOR_2"%string) = false.
Proof.
  apply (candidates_pass_structural_rules lucky_world 1 ("v", "top")%string).
  vm_compute. right. left. reflexivity.
Defined.

(** X15.  When [random.randint] keeps within its bounds, the three edge
    components of every candidate lie within the board: only the two
    internal components can break the boundary rule. *)
Theorem candidates_edge_components_in_bounds (w : World) (fuel : nat)
  (config : Config) (p : gmap string Rect) (ok : bool) :
  randint_in_range w ->
  In (EvValidate config p ok) (run_search w fuel).2 ->
  in_bounds (p !!! "MIKROBUS_CONNECTOR_1"%string) = true /\
  in_bounds (p !!! "MIKROBUS_CONNECTOR_2"%string) = true /\
  in_bounds (p !!! "USB_CONNECTOR"%string) = true.
Proof.
  intros Hrange Hin. destruct (run_search_trace w fuel) as [Hall _].
  rewrite Forall_forall in Hall. apply list_elem_of_In in Hin.
  destruct (Hall _ Hin) as [_ (n1 & n2 & n3 & mc & cr & ->)].
  destruct (candidate_lookups config (random_randint w n1 0 45)
              (random_randint w n2 0 45) (random_randint w n3 0 45) mc cr)
    as (L1 & L2 & L3 & _ & _).
  rewrite (lookup_total_correct _ _ _ L1), (lookup_total_correct _ _ _ L2),
    (lookup_total_correct _ _ _ L3).
  pose proof (Hrange n1 0 45 ltac:(lia)).
  pose proof (Hrange n2 0 45 ltac:(lia)).
  pose proof (Hrange n3 0 45 ltac:(lia)).
  unfold mikrobus_rects, usb_rect.
  destruct (String.eqb (fst config) "v");
    (destruct (String.eqb (snd config) "top");
     [| destruct (String.eqb (snd config) "bottom");
        [| destruct (String.eqb (snd config) "left")]]);
    cbn [fst snd]; rewrite !in_bounds_true; cbn [comp_x comp_y comp_w comp_h]; lia.
Qed.

Lemma candidates_edge_components_in_bounds_witness :
  in_bounds (sample_placement !!! "MIKROBUS_CONNECTOR_1"%string) = true /\
  in_bounds (sample_placement !!! "MIKROBUS_CONNECTOR_2"%string) = true /\
  in_bounds (sample_placement !!! "USB_CONNECTOR"%string) = true.
Proof.
  apply (candidates_edge_components_in_bounds fair_world 1 ("v", "top")%string
           sample_placement true).
  - intros n a b Hab. unfold fair_world. cbn [random_randint]. lia.
  - vm_compute. right. left. reflexivity.
Defined.

Lemma returned_is_last_validated (w : World) (fuel : nat)
  (positions : gmap string Pos) :
  (run_search w fuel).1.1 = Done (Some positions) ->
  exists pre config p,
    (run_search w fuel).2 = pre ++ [EvValidate config p true] /\
    _convert_to_util_format positions = Some p /\ all_rejected pre.
Proof.
  destruct (run_search_trace w fuel) as [_ Hstop].
  destruct (run_search w fuel) as [[o s'] ev]. cbn [fst snd] in *.
  intros ->.
  destruct Hstop as [(positions' & pre & config & p & [= <-] & -> & Hrej & Hconv)
                    | [Hno _]].
  - by exists pre, config, p.
  - by destruct (Hno positions).
Qed.

(** X16.  A run stops at the first candidate the validator accepts and
    returns it: an accepted validation is the last event of the run and the
    result converts to its placement; conversely a returned result is the
    placement of the last event, and no candidate before it was accepted. *)
Theorem first_accepted_candidate_returned (w : World) (fuel : nat) :
  (forall pre config p post,
      (run_search w fuel).2 = pre ++ EvValidate config p true :: post ->
      post = [] /\
      exists positions,
        (run_search w fuel).1.1 = Done (Some positions) /\
        _convert_to_util_format positions = Some p) /\
  (forall positions,
      (run_search w fuel).1.1 = Done (Some positions) ->
      exists pre config p,
        (run_search w fuel).2 = pre ++ [EvValidate config p true] /\
        _convert_to_util_format positions = Some p /\ all_rejected pre).
Proof.
  split; [| apply returned_is_last_validated].
  destruct (run_search_trace w fuel) as [_ Hstop].
  destruct (run_search w fuel) as [[o s'] ev]. cbn [fst snd] in *.
  - intros pre config p post Hev.
    destruct Hstop as [(positions & pre' & config' & p' & -> & Hev' & Hrej & Hconv)
                      | [_ Hrej]].
    + destruct (exists_last (l := EvValidate config p true :: post))
        as (mid & e & Hsplit); [discriminate |].
      rewrite Hsplit, app_assoc in Hev. rewrite Hev in Hev'.
      apply app_inj_tail in Hev'. destruct Hev' as [Hpre ->].
      destruct mid as [| e0 mid].
      * simpl in Hsplit. injection Hsplit as <- <- ->. split; [reflexivity |]. eauto.
      * exfalso. simpl in Hsplit. injection Hsplit as <- _.
        apply (Hrej config p). rewrite <- Hpre. apply in_or_app. right. by left.
    + exfalso. apply (Hrej config p). rewrite Hev. apply in_or_app. right. by left.
Qed.

Lemma first_accepted_candidate_returned_witness :
  exists pre config p,
    (run_search lucky_world 1).2 = pre ++ [EvValidate config p true] /\
    _convert_to_util_format sample_positions = Some p /\ all_rejected pre.
Proof.
  destruct (first_accepted_candidate_returned lucky_world 1) as [_ H].
  apply (H sample_positions). vm_compute. reflexivity.
Defined.

(** X17.  [find_placement] never raises [KeyError]: every name it looks
    up in [COMPONENTS_SPECS] is there, whatever the draws and the clock. *)
Theorem find_placement_never_raises (w : World) (fuel : nat) :
  (run_search w fuel).1.1 <> KeyError.
Proof.
  rewrite run_search_unfold.
  apply (for_configs_induction w (time_time w 0) fuel
           (fun _ _ res => res.1.1 <> KeyError)); simpl; try discriminate; auto.
Qed.

(** X18.  When the deadline has already passed at the first check,
    [find_placement] returns [None] without handing any candidate to the
    validator. *)
Theorem no_time_no_candidate (w : World) (fuel : nat) :
  clock_expires w 1 -> (1 <= fuel)%nat ->
  (run_search w fuel).1.1 = Done None /\
  forall config p ok, ~ In (EvValidate config p ok) (run_search w fuel).2.
Proof.
  intros Hclock Hfuel.
  assert (Hnone : forall config p ok, ~ In (EvValidate config p ok) (run_search w fuel).2).
  { rewrite run_search_unfold. apply for_configs_expired.
    intros n Hn. apply Hclock. simpl in Hn. exact Hn. }
  split; [| exact Hnone].
  assert (Hret : exists r, (run_search w fuel).1.1 = Done r).
  { rewrite run_search_unfold.
    apply (for_configs_returns w (time_time w 0) fuel 1); [exact Hclock | lia |].
    simpl. lia. }
  destruct Hret as [r Hr].
  destruct r as [positions |]; [| exact Hr]. exfalso.
  destruct (returned_is_last_validated w fuel positions Hr)
    as (pre & config & p & Hev & _).
  apply (Hnone config p true). rewrite Hev. apply in_or_app. right. by left.
Qed.

Lemma no_time_no_candidate_witness :
  (run_search late_world 1).1.1 = Done None /\
  forall config p ok, ~ In (EvValidate config p ok) (run_search late_world 1).2.
Proof.
  apply (no_time_no_candidate late_world 1).
  - intros n Hn. destruct n as [| n]; [lia | reflexivity].
  - lia.
Defined.

(** ** From a result to its score *)

Lemma candidate_sizes (config : Config) (r1 r2 r3 : Z) (mc cr : Z * Z) :
  forall name comp,
    candidate_placement config r1 r2 r3 mc cr !! name = Some comp ->
    0 <= comp_w comp /\ 0 <= comp_h comp.
Proof.
  intros name comp. unfold candidate_placement, mikrobus_rects, usb_rect.
  rewrite !lookup_insert_Some, lookup_empty.
  destruct (String.eqb (fst config) "v");
    (destruct (String.eqb (snd config) "top");
     [| destruct (String.eqb (snd config) "bottom");
        [| destruct (String.eqb (snd config) "left")]]);
    cbn [fst snd];
    intros [[_ <-] | [_ [[_ <-] | [_ [[_ <-] | [_ [[_ <-] | [_ [[_ <-] | [_ H]]]]]]]]]];
    try discriminate H; cbn [comp_w comp_h]; lia.
Qed.

(** X19.  A result of [find_placement] can be converted and scored without
    an exception, as the main block does, and its compactness score is a
    multiple of 50 between 75 and 2500. *)
Theorem returned_result_is_scored (w : World) (fuel : nat)
  (positions : gmap string Pos) :
  (run_search w fuel).1.1 = Done (Some positions) ->
  exists final_placement area c extent,
    _convert_to_util_format positions = Some final_placement /\
    score_placement final_placement = Scored area c /\
    area = 50 * extent /\ 75 <= area <= 2500.
Proof.
  intros Hr.
  destruct (returned_is_last_validated w fuel positions Hr)
    as (pre & config & p & Hev & Hconv & _).
  assert (Hin : In (EvValidate config p true) (run_search w fuel).2)
    by (rewrite Hev; apply in_or_app; right; by left).
  destruct (run_search_trace w fuel) as [Hall _].
  rewrite Forall_forall in Hall.
  destruct (Hall _ (proj2 (list_elem_of_In _ _) Hin))
    as [Hok (n1 & n2 & n3 & mc & cr & Hp)].
  symmetry in Hok.
  pose proof (validate_placement_true p Hok) as (Hk & Hb & _ & _ & Hpar & _).
  destruct (has_required_keys_lookup _ "MICROCONTROLLER" Hk) as [micro Hmicro];
    [simpl; tauto |].
  destruct (score_placement p) as [area c | |] eqn:Hscore.
  - exists p, area, c.
    destruct (score_placement_Scored _ _ _ Hscore)
      as (min_x & max_x & min_y & max_y & Hbox & ->).
    pose proof (parallel_box_spans _ _ _ _ _ Hk Hb Hpar Hbox) as Hspan.
    assert (Hsizes : forall name comp, p !! name = Some comp ->
                                       0 <= comp_w comp /\ 0 <= comp_h comp)
      by (rewrite Hp; apply candidate_sizes).
    destruct (bounding_box_area_bounds _ _ _ _ _ Hb Hsizes Hbox) as [Hmax Hmin].
    destruct (candidate_lookups config (random_randint w n1 0 45)
                (random_randint w n2 0 45) (random_randint w n3 0 45) mc cr)
      as (L1 & _). rewrite <- Hp in L1.
    pose proof (Hmin _ _ L1) as H75.
    assert (Harea : comp_w (fst (mikrobus_rects (fst config)
                                   (random_randint w n1 0 45)
                                   (random_randint w n2 0 45))) *
                    comp_h (fst (mikrobus_rects (fst config)
                                   (random_randint w n1 0 45)
                                   (random_randint w n2 0 45))) = 75)
      by (unfold mikrobus_rects; destruct (String.eqb (fst config) "v"); reflexivity).
    rewrite Harea in H75.
    destruct Hspan as [[Ea Eb] | [Ea Eb]].
    + exists (max_y - min_y). rewrite Ea, Eb in *.
      repeat split; try assumption; lia.
    + exists (max_x - min_x). rewrite Ea, Eb in *.
      repeat split; try assumption; lia.
  - exfalso. unfold score_placement in Hscore.
    destruct (bounding_box p) as [[[[min_x max_x] min_y] max_y] |] eqn:Hbox;
      [rewrite Hmicro in Hscore; discriminate Hscore |].
    apply bounding_box_None in Hbox. rewrite Hbox, lookup_empty in Hmicro.
    discriminate Hmicro.
  - exfalso. unfold score_placement in Hscore.
    destruct (bounding_box p) as [[[[min_x max_x] min_y] max_y] |];
      [rewrite Hmicro in Hscore |]; discriminate Hscore.
Qed.

Lemma returned_result_is_scored_witness :
  exists final_placement area c extent,
    _convert_to_util_format sample_positions = Some final_placement /\
    score_placement final_placement = Scored area c /\
    area = 50 * extent /\ 75 <= area <= 2500.
Proof.
  apply (returned_result_is_scored lucky_world 1 sample_positions).
  vm_compute. reflexivity.
Defined.

(** ** Balance of the candidates *)

Lemma com_Permutation (placement : gmap string Rect) (items : list (string * Rect)) :
  items ≡ₚ map_to_list placement ->
  (fst (com placement) == fst (com_of (map _get_center items.*2)))%Q /\
  (snd (com placement) == snd (com_of (map _get_center items.*2)))%Q.
Proof.
  intros Hp. unfold com.
  assert (Hc : map _get_center items.*2 ≡ₚ map _get_center (map_to_list placement).*2)
    by (by rewrite Hp).
  unfold com_of. cbn [fst snd]. rewrite (Permutation_length Hc). split.
  - apply Qmult_comp; [| reflexivity]. apply Qsum_Permutation. by rewrite Hc.
  - apply Qmult_comp; [| reflexivity]. apply Qsum_Permutation. by rewrite Hc.
Qed.

Lemma candidate_items (config : Config) (r1 r2 r3 : Z) (mc cr : Z * Z) :
  [ ("CRYSTAL"%string, mkRect (fst cr) (snd cr) 5 5);
    ("MICROCONTROLLER"%string, mkRect (fst mc) (snd mc) 5 5);
    ("USB_CONNECTOR"%string, usb_rect (snd config) r3);
    ("MIKROBUS_CONNECTOR_2"%string, snd (mikrobus_rects (fst config) r1 r2));
    ("MIKROBUS_CONNECTOR_1"%string, fst (mikrobus_rects (fst config) r1 r2)) ]
  ≡ₚ map_to_list (candidate_placement config r1 r2 r3 mc cr).
Proof.
  unfold candidate_placement. symmetry.
  repeat (rewrite map_to_list_insert;
          [apply Permutation_skip
          | repeat (rewrite lookup_insert_ne by done); apply lookup_empty]).
  by rewrite map_to_list_empty.
Qed.

(** An integer plus one half is at least one half away from 0. *)
Lemma half_integer_sq (m : Z) : (1 # 4 <= (inject_Z m + (1 # 2)) ^ 2)%Q.
Proof.
  assert (H : 0 <= m * (m + 1)) by nia.
  rewrite Zle_Qle in H. rewrite inject_Z_mult, inject_Z_plus in H.
  change (inject_Z 0) with 0%Q in H. change (inject_Z 1) with 1%Q in H.
  simpl Qpower. lra.
Qed.

Lemma odd_center (x w : Z) :
  Z.odd w = true ->
  (inject_Z x + inject_Z w / 2 == inject_Z (x + (w - 1) / 2) + (1 # 2))%Q.
Proof.
  intros Hodd. apply Zodd_bool_iff in Hodd. rewrite Zodd_ex_iff in Hodd.
  destruct Hodd as [k ->].
  replace ((2 * k + 1 - 1) / 2) with k
    by (replace (2 * k + 1 - 1) with (k * 2) by lia; by rewrite Z.div_mul).
  rewrite !inject_Z_plus, inject_Z_mult.
  change (inject_Z 2) with 2%Q. change (inject_Z 1) with 1%Q. field.
Qed.

Lemma off_center_bound (sx sy : Q) (mx my : Z) :
  (sx - 125 == inject_Z mx + (1 # 2))%Q ->
  (sy - 125 == inject_Z my + (1 # 2))%Q ->
  (1 # 50 <= _distance_sq (sx / 5, sy / 5) (25, 25))%Q.
Proof.
  intros Hx Hy. unfold _distance_sq. cbn [fst snd].
  pose proof (half_integer_sq mx) as Bx. pose proof (half_integer_sq my) as By.
  setoid_replace ((25 - sx / 5) ^ 2)%Q
    with ((sx - 125) ^ 2 * (1 # 25))%Q using relation Qeq by (simpl Qpower; field).
  setoid_replace ((25 - sy / 5) ^ 2)%Q
    with ((sy - 125) ^ 2 * (1 # 25))%Q using relation Qeq by (simpl Qpower; field).
  rewrite Hx, Hy.
  set (qx := ((inject_Z mx + (1 # 2)) ^ 2)%Q) in *.
  set (qy := ((inject_Z my + (1 # 2)) ^ 2)%Q) in *.
  lra.
Qed.

Lemma odd_sums_off_center (a b c d e : Rect) :
  Z.odd (comp_w a) = true -> Z.odd (comp_h a) = true ->
  Z.odd (comp_w b) = true -> Z.odd (comp_h b) = true ->
  Z.odd (comp_w c) = true -> Z.odd (comp_h c) = true ->
  Z.odd (comp_w d) = true -> Z.odd (comp_h d) = true ->
  Z.odd (comp_w e) = true -> Z.odd (comp_h e) = true ->
  (1 # 50 <= _distance_sq (com_of (map _get_center [a; b; c; d; e])) (25, 25))%Q.
Proof.
  intros ? ? ? ? ? ? ? ? ? ?.
  unfold com_of. cbn [map length fst snd _get_center Z.of_nat Pos.of_succ_nat Pos.succ].
  change (inject_Z 5) with 5%Q. unfold Qsum. cbn [foldl].
  eapply (off_center_bound _ _
            (comp_x a + (comp_w a - 1) / 2 + (comp_x b + (comp_w b - 1) / 2) +
             (comp_x c + (comp_w c - 1) / 2) + (comp_x d + (comp_w d - 1) / 2) +
             (comp_x e + (comp_w e - 1) / 2) + 2 - 125)
            (comp_y a + (comp_h a - 1) / 2 + (comp_y b + (comp_h b - 1) / 2) +
             (comp_y c + (comp_h c - 1) / 2) + (comp_y d + (comp_h d - 1) / 2) +
             (comp_y e + (comp_h e - 1) / 2) + 2 - 125)).
  - rewrite !(odd_center (comp_x _)) by assumption.
    unfold Z.sub. rewrite !inject_Z_plus.
    change (inject_Z 2) with 2%Q. change (inject_Z (- (125))) with (- (125))%Q. ring.
  - rewrite !(odd_center (comp_y _)) by assumption.
    unfold Z.sub. rewrite !inject_Z_plus.
    change (inject_Z 2) with 2%Q. change (inject_Z (- (125))) with (- (125))%Q. ring.
Qed.

(** X20.  Five rectangles at integer positions whose widths and heights
    are all odd are never exactly balanced: the squared distance of their
    center of mass from (25, 25) is at least 1/50. *)
Theorem odd_footprints_off_center (a b c d e : Rect) :
  Forall (fun r => Z.odd (comp_w r) = true /\ Z.odd (comp_h r) = true) [a; b; c; d; e] ->
  (1 # 50 <= _distance_sq (com_of (map _get_center [a; b; c; d; e])) (25, 25))%Q.
Proof.
  intros H. repeat (apply Forall_cons in H; destruct H as [[? ?] H]).
  by apply odd_sums_off_center.
Qed.

Lemma odd_footprints_off_center_witness :
  (1 # 50 <= _distance_sq
               (com_of (map _get_center
                          [mkRect 28 26 5 5; mkRect 23 26 5 5; mkRect 20 0 5 5;
                           mkRect 35 30 15 5; mkRect 0 30 15 5])) (25, 25))%Q.
Proof.
  apply (odd_footprints_off_center (mkRect 28 26 5 5) (mkRect 23 26 5 5)
           (mkRect 20 0 5 5) (mkRect 35 30 15 5) (mkRect 0 30 15 5)).
  repeat constructor.
Defined.

(** X21.  No candidate of the search is exactly balanced: the footprints of
    [COMPONENTS_SPECS] are odd, so the center of mass of every candidate is
    at least sqrt(1/50) away from (25, 25), and the target center derived
    for the two internal components is never met by both. *)
Theorem candidates_never_exactly_balanced (w : World) (fuel : nat)
  (config : Config) (p : gmap string Rect) (ok : bool) :
  In (EvValidate config p ok) (run_search w fuel).2 ->
  (1 # 50 <= com_dist_sq p)%Q.
Proof.
  intros Hin. destruct (run_search_trace w fuel) as [Hall _].
  rewrite Forall_forall in Hall. apply list_elem_of_In in Hin.
  destruct (Hall _ Hin) as [_ (n1 & n2 & n3 & mc & cr & ->)].
  set (r1 := random_randint w n1 0 45). set (r2 := random_randint w n2 0 45).
  set (r3 := random_randint w n3 0 45).
  destruct (com_Permutation _ _ (candidate_items config r1 r2 r3 mc cr)) as [Hx Hy].
  unfold com_dist_sq, _distance_sq. rewrite Hx, Hy.
  apply (odd_sums_off_center
           (mkRect (fst cr) (snd cr) 5 5) (mkRect (fst mc) (snd mc) 5 5)
           (usb_rect (snd config) r3)
           (snd (mikrobus_rects (fst config) r1 r2))
           (fst (mikrobus_rects (fst config) r1 r2)));
    unfold usb_rect, mikrobus_rects;
    destruct (String.eqb (fst config) "v");
    (destruct (String.eqb (snd config) "top");
     [| destruct (String.eqb (snd config) "bottom");
        [| destruct (String.eqb (snd config) "left")]]);
    reflexivity.
Qed.

Lemma candidates_never_exactly_balanced_witness :
  (1 # 50 <= com_dist_sq sample_placement)%Q.
Proof.
  apply (candidates_never_exactly_balanced lucky_world 1 ("v", "top")%string
           sample_placement true).
  vm_compute. right. left. reflexivity.
Defined.

(** ** Witnesses for two earlier lemmas *)


Lemma only_first_configuration_attempted_witness :
  head (random_shuffle lucky_world edge_configs) = Some ("v", "top")%string.
Proof.
  apply (only_first_configuration_attempted lucky_world 1
           ltac:(intros m n _; apply Qle_refl)
           ("v", "top")%string sample_placement true).
  vm_compute. right. left. reflexivity.
Defined.
